(** * GalacticScribe: a shallow embedding of [GalacticScribe.py]

    The script fetches the chapters of configured stories, removes
    duplicate titles, sorts the chapters by creation time, validates each
    chapter body, packs the survivors into an EPUB, mails it, and records
    the delivery in a size-capped log directory.

    Conventions of the model:
    - a Python [str] is a [string]; one [ascii] stands for one character
      (code points 0..255), so [String.length] is Python's [len];
    - [created_utc] is an epoch time in seconds, a [Z];
    - [selftext_html] is an [option string]: PRAW gives [None] for a post
      without text;
    - a file size is an [N], and the size test of the log directory is
      made on the float nearest to the byte count;
    - a [dict] is an association list in insertion order, because
      [dict.values()] feeds a stable sort;
    - the libraries the script calls (BeautifulSoup, tenacity, smtplib, the
      file system) are modelled at their interface: the HTML parser is a
      parameter, external calls are events whose outcome an oracle decides. *)

From Stdlib Require Import List String Ascii Bool Arith ZArith NArith Lia.
From Stdlib Require Import Permutation Sorted.
Import ListNotations.

Local Open Scope string_scope.

(** ** Python string helpers *)

Module Py.

(** [sep.join(parts)] *)
Fixpoint join (sep : string) (parts : list string) : string :=
  match parts with
  | [] => ""
  | [p] => p
  | p :: rest => p ++ sep ++ join sep rest
  end.

(** [str.isspace] on one character, for the code points below 256:
    TAB..CR, the separators FS..US, space, NEL and the no-break space. *)
Definition isspace (c : ascii) : bool :=
  let n := nat_of_ascii c in
  (((9 <=? n) && (n <=? 13)) || ((28 <=? n) && (n <=? 32))
   || (n =? 133) || (n =? 160))%nat.

Fixpoint lstrip (s : string) : string :=
  match s with
  | EmptyString => EmptyString
  | String c rest => if isspace c then lstrip rest else s
  end.

Fixpoint rstrip (s : string) : string :=
  match s with
  | EmptyString => EmptyString
  | String c rest =>
      match rstrip rest with
      | EmptyString => if isspace c then EmptyString else String c EmptyString
      | r => String c r
      end
  end.

(** [s.strip()] *)
Definition strip (s : string) : string := rstrip (lstrip s).

(** Truth value of a string: [not s] holds for the empty string only. *)
Definition falsy (s : string) : bool :=
  match s with EmptyString => true | String _ _ => false end.

(** [s.startswith(p)] *)
Fixpoint startswith (p s : string) : bool :=
  match p, s with
  | EmptyString, _ => true
  | String a p', String b s' => Ascii.eqb a b && startswith p' s'
  | String _ _, EmptyString => false
  end.

(** [p in s] for strings: substring test. *)
Fixpoint contains (p s : string) : bool :=
  startswith p s ||
  match s with
  | EmptyString => false
  | String _ s' => contains p s'
  end.

(** [s.endswith("/")] *)
Fixpoint ends_with_slash (s : string) : bool :=
  match s with
  | EmptyString => false
  | String c EmptyString => Ascii.eqb c "/"
  | String _ rest => ends_with_slash rest
  end.

(** [os.path.join(a, b)] on POSIX. *)
Definition path_join (a b : string) : string :=
  if startswith "/" b then b
  else if falsy a || ends_with_slash a then a ++ b
  else a ++ "/" ++ b.

(** [Path(p).name] of a path that does not end in a slash: what follows
    the last slash. *)
Fixpoint basename (p : string) : string :=
  match p with
  | EmptyString => EmptyString
  | String c rest =>
      if contains "/" rest then basename rest
      else if Ascii.eqb c "/" then rest else p
  end.

(** Some character of [s] is not white space. *)
Definition has_text (s : string) : Prop :=
  exists c, In c (list_ascii_of_string s) /\ isspace c = false.

End Py.

(** ** [sanitize_title] *)

(** The character class that [re.sub] replaces by an underscore: the nine
    characters a file name may not hold (angle brackets, colon, double
    quote, slash, backslash, bar, question mark, star). *)
Definition unsafe_chars : list ascii :=
  ["<"; ">"; ":"; "034"; "/"; "\"; "|"; "?"; "*"]%char.

Definition is_unsafe (c : ascii) : bool := existsb (Ascii.eqb c) unsafe_chars.

Fixpoint sanitize_title (title : string) : string :=
  match title with
  | EmptyString => EmptyString
  | String c rest =>
      String (if is_unsafe c then "_"%char else c) (sanitize_title rest)
  end.

(** ** [validate_story] *)

(** The tree BeautifulSoup builds.  [NavigableString] is text that
    [tag.text] collects; [Comment] stands for the string kinds it skips
    (comments, declarations, processing instructions). *)
#[local] Set Warnings "-register-all".

Inductive node : Type :=
| NavigableString (s : string)
| Comment (s : string)
| Tag (name : string) (attrs : list (string * string)) (contents : list node).

(** [tag.text]: the text strings below a node, concatenated. *)
Fixpoint text (n : node) : string :=
  match n with
  | NavigableString s => s
  | Comment _ => ""
  | Tag _ _ contents => Py.join "" (map text contents)
  end.

(** Every node below a node, in document order. *)
Fixpoint descendants (n : node) : list node :=
  match n with
  | Tag _ _ contents => flat_map (fun c => c :: descendants c) contents
  | _ => []
  end.

Definition soup_descendants (soup : list node) : list node :=
  flat_map (fun c => c :: descendants c) soup.

(** [soup.find_all(f)]: the tags below the root on which [f] is true. *)
Definition find_all (f : string -> node -> bool) (soup : list node)
  : list node :=
  filter (fun n => match n with Tag name _ _ => f name n | _ => false end)
         (soup_descendants soup).

Definition structural_tags : list string :=
  ["p"; "h1"; "h2"; "h3"; "h4"; "h5"; "h6"].

(** [lambda tag: tag.name in [...] and not tag.text.strip()] *)
Definition empty_structural (name : string) (tag : node) : bool :=
  existsb (String.eqb name) structural_tags
  && Py.falsy (Py.strip (text tag)).

(** [n] is an element of the document: the transitive child relation
    below the root, stated on its own to read the claims against. *)
Inductive element_of (soup : list node) : node -> Prop :=
| element_top n : In n soup -> element_of soup n
| element_child name attrs contents n :
    element_of soup (Tag name attrs contents) ->
    In n contents -> element_of soup n.

Section Validation.

(** [BeautifulSoup(html, 'html.parser')]: the contents of the root. *)
Variable parse : string -> list node.

Definition validate_story (chapter_title html_content : string)
  : bool * string :=
  if (String.length html_content <? 100)%nat then
    (false, "Chapter '" ++ chapter_title ++ "' is too short.")
  else
    let soup := parse html_content in
    match find_all empty_structural soup with
    | _ :: _ =>
        (false, "Chapter '" ++ chapter_title ++ "' contains empty tags.")
    | [] => (true, "")
    end.

End Validation.

(** ** Submissions, the title dictionary and the sort *)

(** What the script reads of a PRAW submission; [post_id] is Reddit's id,
    which tells two posts with the same title and time apart.
    [selftext_html] is [None] for a post without text (a link post, a
    self post with an empty body). *)
Record submission : Type := {
  post_id : string;
  title : string;
  created_utc : Z;
  selftext_html : option string
}.

(** [chapter_submissions]: a dict from title to submission, kept in
    insertion order. *)
Definition chapter_dict : Type := list (string * submission).

(** [d[k]], [None] when [k not in d]. *)
Fixpoint dict_get (k : string) (d : chapter_dict) : option submission :=
  match d with
  | [] => None
  | (k', v) :: rest => if String.eqb k k' then Some v else dict_get k rest
  end.

(** [d[k] = v]: a present key keeps its place, a new key goes last. *)
Fixpoint dict_set (k : string) (v : submission) (d : chapter_dict)
  : chapter_dict :=
  match d with
  | [] => [(k, v)]
  | (k', v') :: rest =>
      if String.eqb k k' then (k', v) :: rest
      else (k', v') :: dict_set k v rest
  end.

(** [d.values()] *)
Definition dict_values (d : chapter_dict) : list submission := map snd d.

(** One turn of the collecting loop of [download_stories]. *)
Definition collect_step (chapter_submissions : chapter_dict)
  (s : submission) : chapter_dict :=
  match dict_get (title s) chapter_submissions with
  | Some stored =>
      if (created_utc s >? created_utc stored)%Z
      then dict_set (title s) s chapter_submissions
      else chapter_submissions
  | None => dict_set (title s) s chapter_submissions
  end.

Definition collect (fetched : list submission) : chapter_dict :=
  fold_left collect_step fetched [].

(** [sorted(l, key=...)]: Python's sort is stable, and a stable sort has one
    result only; insertion from the right, before the first element whose
    key is not smaller, computes it. *)
Section Sorted.

Context {A : Type} (key : A -> Z).

Fixpoint insert_sorted (x : A) (l : list A) : list A :=
  match l with
  | [] => [x]
  | y :: rest =>
      if (key x <=? key y)%Z then x :: l else y :: insert_sorted x rest
  end.

Definition sorted (l : list A) : list A := fold_right insert_sorted [] l.

End Sorted.

Definition sorted_submissions (fetched : list submission) : list submission :=
  sorted created_utc (dict_values (collect fetched)).

(** ** The delivery log: [clean_old_logs] *)

Module Ledger.

(** A directory entry: name, [os.path.getctime] and [os.path.getsize]. *)
Record file : Type := {
  name : string;
  ctime : Z;
  size : N
}.

Fixpoint endswith (suffix s : string) : bool :=
  String.eqb suffix s ||
  match s with
  | EmptyString => false
  | String _ rest => endswith suffix rest
  end.

(** [Path(log_dir).glob('*.log')] *)
Definition glob_log (log_dir : list file) : list file :=
  filter (fun f => endswith ".log" (name f)) log_dir.

(** [sum(os.path.getsize(f) for f in log_files)], in bytes. *)
Definition total_size (log_files : list file) : N :=
  fold_right (fun f acc => (size f + acc)%N) 0%N log_files.

(** The integer [n] rounded to the nearest float, ties to even: a float
    holds 53 significant bits, so from [2 ^ 53] on the low bits of [n] are
    rounded away. *)
Definition round53 (n : N) : N :=
  if (n <? 2 ^ 53)%N then n
  else
    let e := (N.log2 n - 52)%N in
    let q := (n / 2 ^ e)%N in
    let r := (n mod 2 ^ e)%N in
    let half := (2 ^ (e - 1))%N in
    let q' :=
      if (half <? r)%N || ((r =? half)%N && N.odd q) then (q + 1)%N else q in
    (q' * 2 ^ e)%N.

(** [total_size_mb > max_size_mb].  [total_size_mb] is the float nearest
    to the byte count divided by [1024 * 1024]; dividing by a power of two
    only shifts the exponent, so it is [round53] of the byte count over
    [1024 * 1024], and Python compares a float with an integer exactly.
    (The quotient would overflow a float from [2 ^ 1044] bytes on, sizes
    no directory holds; the model leaves that case out.) *)
Definition over_cap (max_size_mb : N) (log_files : list file) : bool :=
  (max_size_mb * (1024 * 1024) <? round53 (total_size log_files))%N.

(** The [while] loop: each turn pops the head of [log_files] and removes
    it.  [None] is the [IndexError] of [pop(0)] on an empty list.  The
    result is the removed files, in order of removal, and the files left
    in [log_files]. *)
Fixpoint clean_loop (max_size_mb : N) (log_files : list file)
  : option (list file * list file) :=
  if over_cap max_size_mb log_files then
    match log_files with
    | [] => None
    | oldest_log :: rest =>
        match clean_loop max_size_mb rest with
        | Some (removed, kept) => Some (oldest_log :: removed, kept)
        | None => None
        end
    end
  else Some ([], log_files).

Definition clean_old_logs (log_dir : list file) (max_size_mb : N)
  : option (list file * list file) :=
  clean_loop max_size_mb (sorted ctime (glob_log log_dir)).

End Ledger.

(** ** Effects: events, exceptions and the retry decorator *)

(** A chapter of the book: [epub.EpubHtml(title, file_name)] and its
    [content]. *)
Record chapter : Type := {
  chapter_title : string;
  file_name : string;
  content : string
}.

(** An entry of the spine: the string ['nav'] or a chapter. *)
Inductive spine_item : Type :=
| Nav
| Item (c : chapter).

Record epub_book : Type := {
  book_title : string;
  language : string;
  authors : list string;
  items : list chapter;
  toc : list chapter;
  spine : list spine_item
}.

(** The message [send_email] composes. *)
Record message : Type := {
  msg_from : string;
  msg_to : string;
  msg_subject : string;
  msg_attachment : option (string * string);
  msg_text : option string
}.

(** What a run does to the outside, in order.  [Smtp] is one SMTP session
    of [send_email] (with the read of the attachment), [Sleep] a wait of
    the retry decorator, [LogEmailSent] a call of [log_email_sent]. *)
Inductive event : Type :=
| Mkdir (dir : string)
| Fetch (author story : string)
| LogError (msg : string)
| WriteEpub (path : string) (book : epub_book)
| Smtp (m : message)
| Sleep (seconds : Z)
| Remove (path : string)
| LogEmailSent (story : string).

(** An exception: its class and text, or tenacity's [RetryError] around
    the last failure. *)
Inductive exn : Type :=
| Error (class text : string)
| RetryError (last : exn).

Definition class_name (e : exn) : string :=
  match e with
  | Error class _ => class
  | RetryError _ => "RetryError"
  end.

(** [str(e)].  The text of a [RetryError] names the class of the last
    failure (the address of the future, which changes from run to run, is
    left out). *)
Definition str (e : exn) : string :=
  match e with
  | Error _ text => text
  | RetryError last =>
      "RetryError[<Future state=finished raised " ++ class_name last ++ ">]"
  end.

(** The state a run threads: the events so far, the number of external
    calls made, and the two lists [download_stories] fills. *)
Record world : Type := {
  trace : list event;
  calls : nat;
  summary : list string;
  failed_files : list string
}.

Inductive result (A : Type) : Type :=
| Ok (a : A)
| Raise (e : exn)
| OutOfFuel.

Arguments Ok {A} a.
Arguments Raise {A} e.
Arguments OutOfFuel {A}.

Definition M (A : Type) : Type := world -> result A * world.

Definition ret {A : Type} (a : A) : M A := fun w => (Ok a, w).

Definition raise {A : Type} (e : exn) : M A := fun w => (Raise e, w).

(** The [TypeError] of [len(None)]. *)
Definition none_has_no_len : exn :=
  Error "TypeError" "object of type 'NoneType' has no len()".

Definition bind {A B : Type} (c : M A) (k : A -> M B) : M B :=
  fun w =>
    match c w with
    | (Ok a, w') => k a w'
    | (Raise e, w') => (Raise e, w')
    | (OutOfFuel, w') => (OutOfFuel, w')
    end.

Declare Scope run_scope.
Delimit Scope run_scope with run.
Notation "x <- c ;; k" := (bind c (fun x => k))
  (at level 61, c at next level, right associativity) : run_scope.
Notation "c ;; k" := (bind c (fun _ => k))
  (at level 61, right associativity) : run_scope.

(** [try: body except Exception as e: handler(e)] *)
Definition try_except {A : Type} (body : M A) (handler : exn -> M A) : M A :=
  fun w =>
    match body w with
    | (Raise e, w') => handler e w'
    | r => r
    end.

Definition emit (ev : event) : M unit :=
  fun w =>
    (Ok tt, {| trace := trace w ++ [ev]; calls := calls w;
               summary := summary w; failed_files := failed_files w |}).

Definition log_error (msg : string) : M unit := emit (LogError msg).

Fixpoint for_each {A : Type} (f : A -> M unit) (l : list A) : M unit :=
  match l with
  | [] => ret tt
  | x :: rest => (f x ;; for_each f rest)%run
  end.

(** [stop_after_attempt(n)]: stop when [attempt_number >= n]. *)
Definition stop_after_attempt (max_attempt_number attempt_number : nat)
  : bool :=
  (max_attempt_number <=? attempt_number)%nat.

(** [wait_exponential(multiplier, min, max)], tenacity's formula:
    [exp = 2 ** (attempt_number - 1); result = multiplier * exp;
     max(max(0, min), min(result, max))]. *)
Definition wait_exponential (multiplier min max : Z) (attempt_number : nat)
  : Z :=
  let exp := (2 ^ (Z.of_nat attempt_number - 1))%Z in
  let result := (multiplier * exp)%Z in
  Z.max (Z.max 0 min) (Z.min result max).

(** tenacity's loop around a decorated function: call it; on an exception
    ask [stop], raise [RetryError] when it says so, else sleep [wait] and
    call again with the next attempt number.  The loop is a [while True];
    [fuel] bounds the turns of the model. *)
Fixpoint retry_loop {A : Type} (stop : nat -> bool) (wait : nat -> Z)
  (fuel attempt_number : nat) (f : M A) : M A :=
  fun w =>
    match f w with
    | (Raise e, w') =>
        if stop attempt_number then (Raise (RetryError e), w')
        else
          match fuel with
          | O => (OutOfFuel, w')
          | S fuel' =>
              (emit (Sleep (wait attempt_number)) ;;
               retry_loop stop wait fuel' (S attempt_number) f)%run w'
          end
    | r => r
    end.

(** [@retry(stop=stop_after_attempt(3),
            wait=wait_exponential(multiplier=1, min=4, max=60))] *)
Definition retry {A : Type} (f : M A) : M A :=
  retry_loop (stop_after_attempt 3) (wait_exponential 1 4 60) 3 1 f.

(** ** The run: [send_email], [download_stories], [job] *)

Record config : Type := {
  bot_enabled : bool;
  authors_stories : list (string * list string);
  sender : string;
  receiver : string;
  error_receiver : string;
  cwd : string
}.

Definition nl : string := String "010" EmptyString.

Section Run.

(** [BeautifulSoup(html, 'html.parser')] and [str(soup)]. *)
Variable parse : string -> list node.
Variable decode : list node -> string.
(** What [get_chapters(author, story)] returns when Reddit answers. *)
Variable reddit : string -> string -> list submission.
(** The outcome of the n-th external call of the run: [None] when it
    succeeds, the class and text of the exception it raises otherwise. *)
Variable oracle : nat -> option (string * string).
Variable cfg : config.

(** An external call: it is recorded, counted, and fails when the oracle
    says so. *)
Definition ext (ev : event) : M unit :=
  fun w =>
    let w' := {| trace := trace w ++ [ev]; calls := S (calls w);
                 summary := summary w; failed_files := failed_files w |} in
    match oracle (calls w) with
    | None => (Ok tt, w')
    | Some (class, text) => (Raise (Error class text), w')
    end.

(** The message [send_email] composes: the subject gets an [Error: ]
    prefix when there is an error text, the attachment is named after the
    base name of the file, the text part is the error text. *)
Definition compose_message (file_path : option string)
  (story_title receiver_email : string) (error_message : option string)
  : message :=
  let has_error :=
    match error_message with
    | Some m => negb (Py.falsy m)
    | None => false
    end in
  {| msg_from := sender cfg;
     msg_to := receiver_email;
     msg_subject :=
       if has_error then "Error: " ++ story_title else story_title;
     msg_attachment :=
       match file_path with
       | Some f => if Py.falsy f then None else Some (f, Py.basename f)
       | None => None
       end;
     msg_text := if has_error then error_message else None |}.

(** The body of [send_email]: compose the message, run one SMTP session. *)
Definition send_email_body (file_path : option string)
  (story_title receiver_email : string) (error_message : option string)
  : M unit :=
  ext (Smtp (compose_message file_path story_title receiver_email
                             error_message)).

Definition send_email (file_path : option string)
  (story_title receiver_email : string) (error_message : option string)
  : M unit :=
  retry (send_email_body file_path story_title receiver_email error_message).

Definition get_chapters (author story : string) : M (list submission) :=
  (ext (Fetch author story) ;; ret (reddit author story))%run.

Definition summary_append (line : string) : M unit :=
  fun w =>
    (Ok tt, {| trace := trace w; calls := calls w;
               summary := summary w ++ [line];
               failed_files := failed_files w |}).

Definition failed_files_append (path : string) : M unit :=
  fun w =>
    (Ok tt, {| trace := trace w; calls := calls w;
               summary := summary w;
               failed_files := failed_files w ++ [path] |}).

Definition reset_lists : M unit :=
  fun w =>
    (Ok tt, {| trace := trace w; calls := calls w;
               summary := []; failed_files := [] |}).

Definition get_summary : M (list string) := fun w => (Ok (summary w), w).

Definition log_email_sent (story_title : string) : M unit :=
  ext (LogEmailSent story_title).

(** [epub.EpubHtml(title=chapter_title, file_name=...)] with the
    re-serialized body as content. *)
Definition make_chapter (chapter_title html_content : string) : chapter :=
  {| chapter_title := chapter_title;
     file_name := sanitize_title chapter_title ++ ".xhtml";
     content := decode (parse html_content) |}.

(** The loop over [sorted_submissions]: an invalid chapter is logged and
    skipped, a valid one is added to the book, the table of contents and
    the spine.  On a submission without body, [len(html_content)] in
    [validate_story] raises [TypeError]; nothing catches it there, so it
    ends the loop and the pass. *)
Fixpoint chapter_loop (submissions : list submission)
  (items toc : list chapter) (spine : list spine_item)
  : M (list chapter * list chapter * list spine_item) :=
  match submissions with
  | [] => ret (items, toc, spine)
  | s :: rest =>
      match selftext_html s with
      | None => raise none_has_no_len
      | Some html_content =>
          let (is_valid, validation_message) :=
            validate_story parse (title s) html_content in
          if negb is_valid then
            (log_error validation_message ;;
             chapter_loop rest items toc spine)%run
          else
            let c := make_chapter (title s) html_content in
            chapter_loop rest (items ++ [c]) (toc ++ [c]) (spine ++ [Item c])
      end
  end.

Definition epub_path_of (story : string) : string :=
  Py.path_join (Py.path_join (cwd cfg) (sanitize_title story))
               (sanitize_title story ++ ".epub").

(** The [try]/[except] that ends the work on one story. *)
Definition deliver (author story epub_path : string) : M unit :=
  try_except
    (send_email (Some epub_path) story (receiver cfg) None ;;
     ext (Remove epub_path) ;;
     summary_append
       ("Successfully processed and sent " ++ story ++ " by " ++ author) ;;
     log_email_sent story)%run
    (fun e =>
       let error_message :=
         "Failed to send and delete EPUB for " ++ story ++ ": " ++ str e in
       (log_error error_message ;;
        send_email None ("Error - " ++ story) (error_receiver cfg)
                   (Some error_message) ;;
        summary_append error_message ;;
        failed_files_append epub_path)%run).

(** The body of the two [for] loops, for one author and one story. *)
Definition process_story (author story : string) : M unit :=
  (let story_dir := Py.path_join (cwd cfg) (sanitize_title story) in
   ext (Mkdir story_dir) ;;
   fetched <- get_chapters author story ;;
   built <- chapter_loop (sorted_submissions fetched) [] [] [Nav] ;;
   let '(items, toc, spine) := built in
   let book := {| book_title := story; language := "en";
                  authors := [author]; items := items;
                  toc := toc; spine := spine |} in
   let epub_path := Py.path_join story_dir (sanitize_title story ++ ".epub") in
   ext (WriteEpub epub_path book) ;;
   deliver author story epub_path)%run.

Definition download_stories_body : M unit :=
  (reset_lists ;;
   (if bot_enabled cfg then
      for_each (fun entry : string * list string =>
                  for_each (process_story (fst entry)) (snd entry))
               (authors_stories cfg)
    else ret tt) ;;
   lines <- get_summary ;;
   let summary_email_body := "Summary:" ++ nl ++ nl ++ Py.join nl lines in
   send_email None "Stories Download Summary" (error_receiver cfg)
              (Some summary_email_body))%run.

Definition download_stories : M unit := retry download_stories_body.

Definition job : M unit :=
  try_except download_stories
    (fun e =>
       (log_error ("Failed to download stories: " ++ str e) ;;
        send_email None "Bot Error" (error_receiver cfg)
                   (Some ("Bot encountered an error: " ++ str e)))%run).

(** The module body: the start notice, then one [job]. *)
Definition main : M unit :=
  (send_email None "Bot Started" (error_receiver cfg)
              (Some "The bot has started.") ;;
   job)%run.

End Run.

Definition initial_world : world :=
  {| trace := []; calls := 0; summary := []; failed_files := [] |}.

(** A world after more events and more external calls. *)
Definition advance (w : world) (events : list event) (made : nat) : world :=
  {| trace := trace w ++ events; calls := calls w + made;
     summary := summary w; failed_files := failed_files w |}.

(** The waits in a trace, in order. *)
Fixpoint sleeps (events : list event) : list Z :=
  match events with
  | [] => []
  | Sleep seconds :: rest => seconds :: sleeps rest
  | _ :: rest => sleeps rest
  end.

(** The messages of the SMTP sessions in a trace, in order. *)
Fixpoint mails (events : list event) : list message :=
  match events with
  | [] => []
  | Smtp m :: rest => m :: mails rest
  | _ :: rest => mails rest
  end.

(** The backoff as the specification words it: a base delay of 4 that
    doubles with every retry, capped at 60 (4, 8, 16, ...). *)
Definition spec_backoff (attempt_number : nat) : Z :=
  Z.min 60 (4 * 2 ^ (Z.of_nat attempt_number - 1)).

(** A submission with a body. *)
Definition has_body (s : submission) : bool :=
  match selftext_html s with
  | Some _ => true
  | None => false
  end.

(** The body of a submission that has one. *)
Definition html_of (s : submission) : string :=
  match selftext_html s with
  | Some html => html
  | None => ""
  end.

(** The submissions with a body that [validate_story] accepts, and the
    messages logged for those with a body that it rejects, in order. *)
Definition is_valid (parse : string -> list node) (s : submission) : bool :=
  match selftext_html s with
  | Some html => fst (validate_story parse (title s) html)
  | None => false
  end.

Definition rejection_messages (parse : string -> list node)
  (submissions : list submission) : list string :=
  map (fun s => snd (validate_story parse (title s) (html_of s)))
      (filter (fun s => has_body s && negb (is_valid parse s)) submissions).

(** ** The configured stories and the selection of [get_chapters] *)

(** [s.split(sep)] for a separator of one character. *)
Fixpoint split (sep : ascii) (s : string) : list string :=
  match s with
  | EmptyString => [EmptyString]
  | String c rest =>
      if Ascii.eqb c sep then EmptyString :: split sep rest
      else
        match split sep rest with
        | [] => [String c EmptyString]
        | piece :: pieces => String c piece :: pieces
        end
  end.

(** [[s.strip() for s in stories.split(',')]]: the stories configured for
    one author. *)
Definition story_list (stories : string) : list string :=
  map Py.strip (split "," stories).

(** [authors_stories], built from the items of the STORIES section. *)
Definition read_authors_stories (section : list (string * string))
  : list (string * list string) :=
  map (fun entry => (fst entry, story_list (snd entry))) section.

(** [str.lower] on one character, for the code points below 256: the
    letters A..Z and the capital letters of Latin-1 (all of 192..222 but
    the multiplication sign) move up by 32. *)
Definition lower_char (c : ascii) : ascii :=
  let n := nat_of_ascii c in
  if (((65 <=? n) && (n <=? 90)) || ((192 <=? n) && (n <=? 214))
      || ((216 <=? n) && (n <=? 222)))%nat
  then ascii_of_nat (n + 32)
  else c.

Fixpoint lower (s : string) : string :=
  match s with
  | EmptyString => EmptyString
  | String c rest => String (lower_char c) (lower rest)
  end.

(** A submission as the listing of a redditor gives it: the display name
    of its subreddit and what the script reads of the submission. *)
Record reddit_post : Type := {
  display_name : string;
  post : submission
}.

Definition subreddit_name : string := "hfy".

(** The condition of the list comprehension of [get_chapters]. *)
Definition chapter_matches (story : string) (p : reddit_post) : bool :=
  String.eqb (lower (display_name p)) (lower subreddit_name)
  && Py.contains (lower story) (lower (title (post p))).

(** What [get_chapters] returns for the listing [submissions] of the
    author: the submissions of the subreddit whose title holds [story],
    in the order of the listing. *)
Definition select_chapters (story : string) (submissions : list reddit_post)
  : list submission :=
  map post (filter (chapter_matches story) submissions).

(** The pairs of the two [for] loops of [download_stories], in order. *)
Definition story_pairs (cfg : config) : list (string * string) :=
  flat_map (fun entry : string * list string =>
              map (fun story => (fst entry, story)) (snd entry))
           (authors_stories cfg).

(** ** What the statements about a whole run use *)

(** A world after more events, more external calls, more summary lines
    and more undelivered paths. *)
Definition grow (w : world) (events : list event) (made : nat)
  (lines paths : list string) : world :=
  {| trace := trace w ++ events; calls := calls w + made;
     summary := summary w ++ lines;
     failed_files := failed_files w ++ paths |}.

(** A world with the two lists of [download_stories] empty again. *)
Definition fresh (w : world) : world :=
  {| trace := trace w; calls := calls w; summary := []; failed_files := [] |}.

Definition success_line (author story : string) : string :=
  "Successfully processed and sent " ++ story ++ " by " ++ author.

Definition failure_line (story : string) (e : exn) : string :=
  "Failed to send and delete EPUB for " ++ story ++ ": " ++ str e.

(** The chapters of the book of a story and the book itself, for the
    submissions [fetched]. *)
Definition book_chapters (parse : string -> list node)
  (decode : list node -> string) (fetched : list submission)
  : list chapter :=
  map (fun s => make_chapter parse decode (title s) (html_of s))
      (filter (is_valid parse) (sorted_submissions fetched)).

Definition book_of (parse : string -> list node)
  (decode : list node -> string) (author story : string)
  (fetched : list submission) : epub_book :=
  {| book_title := story; language := "en"; authors := [author];
     items := book_chapters parse decode fetched;
     toc := book_chapters parse decode fetched;
     spine := Nav :: map Item (book_chapters parse decode fetched) |}.

Definition delivery_mail (cfg : config) (story : string) : message :=
  compose_message cfg (Some (epub_path_of cfg story)) story (receiver cfg)
                  None.

Definition summary_mail (cfg : config) (lines : list string) : message :=
  compose_message cfg None "Stories Download Summary" (error_receiver cfg)
                  (Some ("Summary:" ++ nl ++ nl ++ Py.join nl lines)).

(** The events of one story when every external call succeeds. *)
Definition story_events (parse : string -> list node)
  (decode : list node -> string)
  (reddit : string -> string -> list submission) (cfg : config)
  (pair : string * string) : list event :=
  let (author, story) := pair in
  ([Mkdir (Py.path_join (cwd cfg) (sanitize_title story));
    Fetch author story]
   ++ map LogError
          (rejection_messages parse
             (sorted_submissions (reddit author story)))
   ++ [WriteEpub (epub_path_of cfg story)
                 (book_of parse decode author story (reddit author story));
       Smtp (delivery_mail cfg story);
       Remove (epub_path_of cfg story);
       LogEmailSent story])%list.

(** The oracle lets the calls from [first] up to, not including,
    [first + count] succeed. *)
Definition fine (oracle : nat -> option (string * string))
  (first count : nat) : Prop :=
  forall n, (first <= n < first + count)%nat -> oracle n = None.

(** The oracle makes the calls from [first] up to, not including,
    [first + count] fail. *)
Definition failing (oracle : nat -> option (string * string))
  (first count : nat) : Prop :=
  forall n, (first <= n < first + count)%nat -> oracle n <> None.

(** A mail that carries a book: to the receiver, with the file of a story
    attached under its sanitized name, no text, the story as subject. *)
Definition is_delivery (cfg : config) (m : message) : Prop :=
  exists story,
    msg_to m = receiver cfg /\ msg_subject m = story
    /\ msg_text m = None
    /\ msg_attachment m =
       Some (epub_path_of cfg story, sanitize_title story ++ ".epub").

(** A mail that carries a text: to the error receiver, without a file,
    with a subject that starts with [Error: ] and a text that is not
    empty. *)
Definition is_notice (cfg : config) (m : message) : Prop :=
  msg_to m = error_receiver cfg /\ msg_attachment m = None
  /\ Py.startswith "Error: " (msg_subject m) = true
  /\ exists body, msg_text m = Some body /\ body <> "".

(** A book as [download_stories] builds it. *)
Definition well_built (cfg : config) (path : string) (book : epub_book)
  : Prop :=
  path = epub_path_of cfg (book_title book)
  /\ language book = "en"
  /\ List.length (authors book) = 1%nat
  /\ items book = toc book
  /\ spine book = Nav :: map Item (toc book)
  /\ NoDup (map chapter_title (toc book)).

(** What holds of every event of a run. *)
Definition run_event (cfg : config) (ev : event) : Prop :=
  match ev with
  | Smtp m => msg_from m = sender cfg /\ (is_delivery cfg m \/ is_notice cfg m)
  | Sleep seconds => seconds = 4%Z
  | WriteEpub path book => well_built cfg path book
  | Remove path =>
      exists author story,
        In (author, story) (story_pairs cfg)
        /\ path = epub_path_of cfg story
  | _ => True
  end.

(** An event that is neither the removal of a file nor an entry of the
    delivery log. *)
Definition keeps_file (ev : event) : Prop :=
  match ev with
  | Remove _ | LogEmailSent _ => False
  | _ => True
  end.

(** [f] appends events of [P] only, ends (it does not run out of fuel),
    and a value it returns is in [Q]. *)
Definition runs {A : Type} (P : event -> Prop) (Q : A -> Prop) (f : M A)
  : Prop :=
  forall w, exists new,
    trace (snd (f w)) = (trace w ++ new)%list
    /\ Forall P new
    /\ fst (f w) <> OutOfFuel
    /\ forall a, fst (f w) = Ok a -> Q a.

(** ** Predicates the statements use *)

(** The order of a list sorted on [key]. *)
Definition key_le {A : Type} (key : A -> Z) (a b : A) : Prop :=
  (key a <= key b)%Z.

(** A dictionary of the collecting loop: no key twice, and every value
    filed under its own title. *)
Definition well_keyed (d : chapter_dict) : Prop :=
  NoDup (map fst d) /\ forall k v, In (k, v) d -> title v = k.

(** [v] is, among the submissions of [l] titled [t], the first one with
    the greatest creation time. *)
Definition first_newest (t : string) (l : list submission) (v : submission)
  : Prop :=
  exists before after,
    l = (before ++ v :: after)%list
    /\ title v = t
    /\ (forall x, In x before -> title x = t ->
                  (created_utc x < created_utc v)%Z)
    /\ (forall x, In x after -> title x = t ->
                  (created_utc x <= created_utc v)%Z).

(** Whatever the outcome, [f] only appends events, all of them in [P]. *)
Definition extends {A : Type} (P : event -> Prop) (f : M A) : Prop :=
  forall w, exists new,
    trace (snd (f w)) = (trace w ++ new)%list /\ Forall P new.

(** The summary message of a run that handled no story: the header and
    no story line. *)
Definition empty_summary_message (cfg : config) : message :=
  {| msg_from := sender cfg; msg_to := error_receiver cfg;
     msg_subject := "Error: Stories Download Summary";
     msg_attachment := None;
     msg_text := Some ("Summary:" ++ nl ++ nl ++ Py.join nl []) |}.

(** ** Sample data *)

Definition sample_config : config :=
  {| bot_enabled := true;
     authors_stories := [("Isha73", ["Beneath Two Suns"])];
     sender := "bot@example.org";
     receiver := "reader@example.org";
     error_receiver := "admin@example.org";
     cwd := "/home/bot" |}.

Definition disabled_config : config :=
  {| bot_enabled := false;
     authors_stories := [("Isha73", ["Beneath Two Suns"])];
     sender := "bot@example.org";
     receiver := "reader@example.org";
     error_receiver := "admin@example.org";
     cwd := "/home/bot" |}.

(** A mail transport that is down, and one that works. *)
Definition smtp_down (n : nat) : option (string * string) :=
  Some ("SMTPException", "Connection refused").

Definition all_fine (n : nat) : option (string * string) := None.

(** External calls 0, 1, 2 (mkdir, fetch, write) work, calls 3, 4, 5 (the
    three SMTP sessions of the delivery) fail, every later call works. *)
Definition delivery_fails (n : nat) : option (string * string) :=
  if ((3 <=? n) && (n <=? 5))%nat
  then Some ("SMTPException", "Connection refused")
  else None.

Definition body_of_99 : string :=
  "123456789012345678901234567890123456789012345678901234567890123456789012345678901234567890123456789".

Definition body_of_100 : string := String "x" body_of_99.

(** The posts of the end-to-end scenario: chapter 1 posted twice, at 100
    and at 150, and chapter 2 at 200. *)
Definition chapter_1_first : submission :=
  {| post_id := "p1"; title := "Beneath Two Suns - Chapter 1";
     created_utc := 100; selftext_html := Some body_of_100 |}.

Definition chapter_1_again : submission :=
  {| post_id := "p2"; title := "Beneath Two Suns - Chapter 1";
     created_utc := 150; selftext_html := Some body_of_100 |}.

Definition chapter_2 : submission :=
  {| post_id := "p3"; title := "Beneath Two Suns - Chapter 2";
     created_utc := 200; selftext_html := Some body_of_100 |}.

Definition scenario_posts : list submission :=
  [chapter_1_first; chapter_1_again; chapter_2].

(** A post of chapter 3 without text. *)
Definition chapter_3_no_body : submission :=
  {| post_id := "p5"; title := "Beneath Two Suns - Chapter 3";
     created_utc := 300; selftext_html := None |}.

(** Chapter 1 posted a second time at the same second as the first. *)
Definition chapter_1_same_time : submission :=
  {| post_id := "p4"; title := "Beneath Two Suns - Chapter 1";
     created_utc := 100; selftext_html := Some body_of_100 |}.

(** The three sessions of the summary of the scenario (calls 6, 7, 8)
    fail, every other call works. *)
Definition summary_fails (n : nat) : option (string * string) :=
  if ((6 <=? n) && (n <=? 8))%nat
  then Some ("SMTPException", "Connection refused")
  else None.

(** Calls 0, 1, 2 fail (the directory of the first story cannot be made
    in any of the three passes), every later call works. *)
Definition mkdir_fails (n : nat) : option (string * string) :=
  if (n <? 3)%nat then Some ("PermissionError", "Permission denied")
  else None.

(** The removal of the file (call 1) fails, every other call works. *)
Definition removal_fails (n : nat) : option (string * string) :=
  if (n =? 1)%nat then Some ("PermissionError", "Permission denied")
  else None.

(** A parser for samples: the whole body as the text of one paragraph. *)
Definition paragraph_parse (html : string) : list node :=
  [Tag "p" [] [NavigableString html]].

(** A parser for samples: one empty second-level heading. *)
Definition empty_heading_parse (html : string) : list node :=
  [Tag "h2" [] []].

(** Induction on a document tree, with the hypothesis on every child. *)
Section NodeInduction.

Variable P : node -> Prop.
Hypothesis P_string : forall s, P (NavigableString s).
Hypothesis P_comment : forall s, P (Comment s).
Hypothesis P_tag : forall name attrs contents,
    Forall P contents -> P (Tag name attrs contents).

Fixpoint node_nested_ind (n : node) : P n :=
  match n with
  | NavigableString s => P_string s
  | Comment s => P_comment s
  | Tag name attrs contents =>
      P_tag name attrs contents
        ((fix children (l : list node) : Forall P l :=
            match l with
            | [] => Forall_nil P
            | c :: rest => Forall_cons c (node_nested_ind c) (children rest)
            end) contents)
  end.

End NodeInduction.

(** ** Lemmas on strings and documents *)

Lemma is_unsafe_underscore : is_unsafe "_" = false.
Proof. reflexivity. Qed.

Lemma lstrip_empty_iff s :
  Py.lstrip s = "" <-> Forall (fun c => Py.isspace c = true) (list_ascii_of_string s).
Proof.
  induction s as [|c s IH]; simpl.
  - split; auto.
  - destruct (Py.isspace c) eqn:E.
    + rewrite IH. split; intro H.
      * constructor; assumption.
      * inversion H; assumption.
    + split; intro H; [discriminate|].
      inversion H; congruence.
Qed.

Lemma strip_empty_iff s :
  Py.falsy (Py.strip s) = true <-> ~ Py.has_text s.
Proof.
  unfold Py.strip, Py.has_text.
  assert (R : forall t, Py.rstrip t = "" ->
                        Forall (fun c => Py.isspace c = true) (list_ascii_of_string t)).
  { induction t as [|c t IH]; simpl; intro H; [constructor|].
    destruct (Py.rstrip t) eqn:Et; [|discriminate].
    destruct (Py.isspace c) eqn:Ec; [|discriminate].
    constructor; auto. }
  assert (L : forall t, Forall (fun c => Py.isspace c = true) (list_ascii_of_string (Py.lstrip t)) ->
                        Py.lstrip t = "").
  { induction t as [|c t IH]; simpl; intro H; [reflexivity|].
    destruct (Py.isspace c) eqn:Ec; [auto|].
    simpl in H. inversion H; congruence. }
  split.
  - intros H [c [Hin Hc]].
    destruct (Py.rstrip (Py.lstrip s)) eqn:E; [|discriminate].
    apply R, L, lstrip_empty_iff in E.
    rewrite Forall_forall in E. apply E in Hin. congruence.
  - intro H.
    assert (E : Py.lstrip s = "").
    { apply lstrip_empty_iff. apply Forall_forall. intros c Hin.
      destruct (Py.isspace c) eqn:Ec; [reflexivity|].
      exfalso. apply H. exists c. auto. }
    rewrite E. reflexivity.
Qed.

Lemma element_of_descendants soup n :
  element_of soup n <-> In n (soup_descendants soup).
Proof.
  assert (D : forall m x, In x (descendants m) ->
                          forall P : node -> Prop,
                            P m ->
                            (forall name attrs contents c,
                                P (Tag name attrs contents) -> In c contents -> P c) ->
                            P x).
  { induction m as [s|s|name attrs contents IH] using node_nested_ind;
      intros x Hx P Pm Pstep; simpl in Hx; try contradiction.
    apply in_flat_map in Hx. destruct Hx as [c [Hc Hx]].
    assert (Pc : P c) by (eapply Pstep; eauto).
    destruct Hx as [->|Hx]; [exact Pc|].
    rewrite Forall_forall in IH.
    exact (IH c Hc x Hx P Pc Pstep). }
  assert (C : forall name attrs contents c,
             In c contents -> In c (descendants (Tag name attrs contents))).
  { intros. simpl. apply in_flat_map. exists c. split; simpl; auto. }
  assert (T : forall m x y, In x (descendants m) -> In y (descendants x) ->
                            In y (descendants m)).
  { intros m x y Hx Hy.
    apply (D x y Hy (fun z => In z (descendants m))); [assumption|].
    intros name attrs contents c Hin Hc.
    apply (D m _ Hin (fun z => forall w, In w (descendants z) -> In w (descendants m))).
    - auto.
    - intros name' attrs' contents' c' Hp Hc' w Hw.
      apply Hp. simpl. apply in_flat_map. exists c'. split; simpl; auto.
    - apply C. assumption. }
  unfold soup_descendants. split.
  - induction 1 as [n Hn|name attrs contents n _ IH Hn].
    + apply in_flat_map. exists n. split; simpl; auto.
    + apply in_flat_map in IH. destruct IH as [r [Hr Hin]].
      apply in_flat_map. exists r. split; [assumption|].
      right. destruct Hin as [->|Hin].
      * apply C. assumption.
      * eapply T; [eassumption|]. apply C. assumption.
  - intro H. apply in_flat_map in H. destruct H as [r [Hr Hin]].
    destruct Hin as [->|Hin].
    + constructor; assumption.
    + apply (D r n Hin (element_of soup)).
      * constructor; assumption.
      * intros. eapply element_child; eauto.
Qed.

(** ** The file-name sanitizer *)

(** C7: sanitizing a title twice gives what sanitizing it once gives. *)
Theorem sanitize_title_idempotent (title : string) :
  sanitize_title (sanitize_title title) = sanitize_title title.
Proof.
  induction title as [|c rest IH]; simpl; [reflexivity|].
  rewrite IH. destruct (is_unsafe c) eqn:E.
  - rewrite is_unsafe_underscore. reflexivity.
  - rewrite E. reflexivity.
Qed.

(** ** The chapter validator *)

Lemma structural_name_iff name :
  existsb (String.eqb name) structural_tags = true <-> In name structural_tags.
Proof.
  rewrite existsb_exists. split.
  - intros [x [Hin Heq]]. apply String.eqb_eq in Heq. subst. assumption.
  - intro H. exists name. split; [assumption|apply String.eqb_refl].
Qed.

Lemma strip_nonempty_has_text s :
  Py.falsy (Py.strip s) = false -> Py.has_text s.
Proof.
  unfold Py.strip. intro H.
  assert (Hne : forall t a r, Py.lstrip t = String a r -> Py.has_text t).
  { induction t as [|c t IH]; simpl; intros a r Ht; [discriminate|].
    destruct (Py.isspace c) eqn:Ec.
    - destruct (IH _ _ Ht) as [x [Hx Hsp]].
      exists x. split; [right; assumption|assumption].
    - exists c. split; [left; reflexivity|assumption]. }
  destruct (Py.lstrip s) as [|a r] eqn:El; [discriminate|].
  eapply Hne. eassumption.
Qed.

Lemma empty_structural_iff name attrs contents :
  empty_structural name (Tag name attrs contents) = true <->
  In name structural_tags /\ ~ Py.has_text (text (Tag name attrs contents)).
Proof.
  unfold empty_structural.
  rewrite andb_true_iff, structural_name_iff, strip_empty_iff. reflexivity.
Qed.

Lemma find_all_empty_structural soup :
  find_all empty_structural soup = [] <->
  forall name attrs contents,
    element_of soup (Tag name attrs contents) ->
    In name structural_tags ->
    Py.has_text (text (Tag name attrs contents)).
Proof.
  unfold find_all. split.
  - intros H name attrs contents Hel Hname.
    apply element_of_descendants in Hel.
    destruct (empty_structural name (Tag name attrs contents)) eqn:E.
    + assert (Hin : In (Tag name attrs contents)
                      (filter (fun n => match n with
                                        | Tag name _ _ => empty_structural name n
                                        | _ => false
                                        end) (soup_descendants soup))).
      { apply filter_In. split; assumption. }
      rewrite H in Hin. contradiction.
    + apply strip_nonempty_has_text.
      unfold empty_structural in E.
      apply structural_name_iff in Hname. rewrite Hname in E. exact E.
  - intro H.
    destruct (filter _ (soup_descendants soup)) as [|n rest] eqn:E;
      [reflexivity|].
    assert (Hin : In n (n :: rest)) by (left; reflexivity).
    rewrite <- E in Hin. apply filter_In in Hin. destruct Hin as [Hd Hp].
    destruct n as [s|s|name attrs contents]; try discriminate.
    apply empty_structural_iff in Hp. destruct Hp as [Hname Hno].
    exfalso. apply Hno. apply H; [|assumption].
    apply element_of_descendants. assumption.
Qed.

(** C3: [validate_story] rejects a body of fewer than 100 characters (one
    of 99 characters among them); it rejects a body in which some heading
    or paragraph element has no text that is not white space, an empty
    [h2] among them, whatever the length; and it accepts, with an empty
    reason, a body of 100 characters or more in which every heading and
    paragraph element has such text. *)
Theorem validate_story_spec (parse : string -> list node)
  (chapter_title html_content : string) :
  ((String.length html_content < 100)%nat ->
   fst (validate_story parse chapter_title html_content) = false)
  /\ (String.length html_content = 99%nat ->
      fst (validate_story parse chapter_title html_content) = false)
  /\ ((exists name attrs contents,
          element_of (parse html_content) (Tag name attrs contents)
          /\ In name structural_tags
          /\ ~ Py.has_text (text (Tag name attrs contents))) ->
      fst (validate_story parse chapter_title html_content) = false)
  /\ ((exists attrs, element_of (parse html_content) (Tag "h2" attrs [])) ->
      fst (validate_story parse chapter_title html_content) = false)
  /\ ((100 <= String.length html_content)%nat ->
      (forall name attrs contents,
          element_of (parse html_content) (Tag name attrs contents) ->
          In name structural_tags ->
          Py.has_text (text (Tag name attrs contents))) ->
      validate_story parse chapter_title html_content = (true, "")).
Proof.
  assert (Short : (String.length html_content < 100)%nat ->
                  fst (validate_story parse chapter_title html_content) = false).
  { intro H. unfold validate_story. apply Nat.ltb_lt in H. rewrite H.
    reflexivity. }
  assert (Empty : (exists name attrs contents,
                      element_of (parse html_content) (Tag name attrs contents)
                      /\ In name structural_tags
                      /\ ~ Py.has_text (text (Tag name attrs contents))) ->
                  fst (validate_story parse chapter_title html_content) = false).
  { intros [name [attrs [contents [Hel [Hname Hno]]]]].
    unfold validate_story.
    destruct (String.length html_content <? 100)%nat; [reflexivity|].
    cbv zeta.
    destruct (find_all empty_structural (parse html_content)) eqn:E;
      [|reflexivity].
    exfalso. apply Hno.
    exact (proj1 (find_all_empty_structural _) E name attrs contents Hel Hname). }
  repeat split.
  - exact Short.
  - intro H. apply Short. lia.
  - exact Empty.
  - intros [attrs Hel]. apply Empty. exists "h2", attrs, [].
    split; [assumption|]. split.
    + unfold structural_tags. simpl. auto.
    + intros [c [Hc _]]. simpl in Hc. contradiction.
  - intros Hlen Hall. unfold validate_story.
    apply Nat.ltb_ge in Hlen. rewrite Hlen. cbv zeta.
    apply find_all_empty_structural in Hall. rewrite Hall. reflexivity.
Qed.

(** ** The title dictionary *)

Lemma dict_get_set_same k v d : dict_get k (dict_set k v d) = Some v.
Proof.
  induction d as [|[k' v'] d IH]; simpl.
  - rewrite String.eqb_refl. reflexivity.
  - destruct (String.eqb k k') eqn:E; simpl; rewrite E; auto.
Qed.

Lemma dict_get_set_other k k' v d :
  k <> k' -> dict_get k' (dict_set k v d) = dict_get k' d.
Proof.
  intro Hne. induction d as [|[k0 v0] d IH]; simpl.
  - destruct (String.eqb_spec k' k); [congruence|reflexivity].
  - destruct (String.eqb_spec k k0); simpl.
    + subst k0. destruct (String.eqb_spec k' k); [congruence|reflexivity].
    + rewrite IH. reflexivity.
Qed.

Lemma dict_get_In k v d : dict_get k d = Some v -> In (k, v) d.
Proof.
  induction d as [|[k' v'] d IH]; simpl; [discriminate|].
  destruct (String.eqb_spec k k'); intro H.
  - left. congruence.
  - right. auto.
Qed.

Lemma dict_get_None k d : dict_get k d = None <-> ~ In k (map fst d).
Proof.
  induction d as [|[k' v'] d IH]; simpl.
  - tauto.
  - destruct (String.eqb_spec k k').
    + split; [discriminate|]. intro H. exfalso. apply H. left. congruence.
    + rewrite IH. split; intro H; [|tauto].
      intros [Heq|Hin]; [congruence|tauto].
Qed.

Lemma In_dict_get k v d :
  NoDup (map fst d) -> In (k, v) d -> dict_get k d = Some v.
Proof.
  induction d as [|[k' v'] d IH]; simpl; [tauto|].
  intros Hnd [Heq|Hin].
  - inversion Heq; subst. rewrite String.eqb_refl. reflexivity.
  - inversion Hnd as [|? ? Hnotin Hnd']; subst.
    destruct (String.eqb_spec k k').
    + subst. exfalso. apply Hnotin.
      change k' with (fst (k', v)). apply in_map. assumption.
    + auto.
Qed.

Lemma dict_set_keys k v d :
  map fst (dict_set k v d) =
  match dict_get k d with
  | Some _ => map fst d
  | None => (map fst d ++ [k])%list
  end.
Proof.
  induction d as [|[k' v'] d IH]; simpl; [reflexivity|].
  destruct (String.eqb_spec k k'); simpl; [reflexivity|].
  rewrite IH. destruct (dict_get k d); reflexivity.
Qed.

Lemma dict_set_In k v d k' v' :
  In (k', v') (dict_set k v d) -> (k', v') = (k, v) \/ In (k', v') d.
Proof.
  induction d as [|[k0 v0] d IH]; simpl.
  - intros [H|[]]. left. congruence.
  - destruct (String.eqb_spec k k0); simpl.
    + subst k0. intros [H|H]; [left; congruence|right; right; assumption].
    + intros [H|H]; [right; left; assumption|].
      destruct (IH H); [left|right; right]; assumption.
Qed.

Lemma dict_set_well_keyed s d :
  well_keyed d -> well_keyed (dict_set (title s) s d).
Proof.
  intros [Hnd Hk]. split.
  - rewrite dict_set_keys. destruct (dict_get (title s) d) eqn:E; [assumption|].
    apply dict_get_None in E.
    apply Permutation_NoDup with (l := title s :: map fst d).
    + apply Permutation_cons_append.
    + constructor; assumption.
  - intros k v Hin. apply dict_set_In in Hin. destruct Hin as [Heq|Hin].
    + inversion Heq. reflexivity.
    + auto.
Qed.

Lemma collect_step_well_keyed d s :
  well_keyed d -> well_keyed (collect_step d s).
Proof.
  intro H. unfold collect_step.
  destruct (dict_get (title s) d); [|apply dict_set_well_keyed; assumption].
  destruct (created_utc s >? created_utc _)%Z;
    [apply dict_set_well_keyed|]; assumption.
Qed.

Lemma collect_snoc l s :
  collect (l ++ [s])%list = collect_step (collect l) s.
Proof. unfold collect. rewrite fold_left_app. reflexivity. Qed.

Lemma collect_well_keyed l : well_keyed (collect l).
Proof.
  induction l as [|s l IH] using rev_ind.
  - split; [constructor|intros k v []].
  - rewrite collect_snoc. apply collect_step_well_keyed. assumption.
Qed.

Lemma first_newest_bound t l v x :
  first_newest t l v -> In x l -> title x = t ->
  (created_utc x <= created_utc v)%Z.
Proof.
  intros [before [after [-> [Ht [Hb Ha]]]]] Hin Hx.
  apply in_app_or in Hin. destruct Hin as [Hin|[->|Hin]].
  - specialize (Hb x Hin Hx). lia.
  - lia.
  - auto.
Qed.

Lemma first_newest_In t l v : first_newest t l v -> In v l.
Proof.
  intros [before [after [-> _]]]. apply in_or_app. right. left. reflexivity.
Qed.

Lemma first_newest_snoc_other t l v s :
  first_newest t l v ->
  (title s = t -> (created_utc s <= created_utc v)%Z) ->
  first_newest t (l ++ [s])%list v.
Proof.
  intros [before [after [-> [Ht [Hb Ha]]]]] Hs.
  exists before, (after ++ [s])%list. repeat split; auto.
  - rewrite <- app_assoc. reflexivity.
  - intros x Hin Hx. apply in_app_or in Hin.
    destruct Hin as [Hin|[->|[]]]; auto.
Qed.

Lemma collect_lookup l t :
  match dict_get t (collect l) with
  | Some v => first_newest t l v
  | None => forall x, In x l -> title x <> t
  end.
Proof.
  induction l as [|s l IH] using rev_ind; [simpl; tauto|].
  rewrite collect_snoc. unfold collect_step.
  destruct (String.eqb_spec (title s) t) as [Heq|Hne].
  - subst t.
    destruct (dict_get (title s) (collect l)) as [stored|] eqn:E.
    + destruct (Z.gtb_spec (created_utc s) (created_utc stored)) as [Hgt|Hle].
      * rewrite dict_get_set_same.
        exists l, []. repeat split; auto.
        -- intros x Hin Hx.
           pose proof (first_newest_bound _ _ _ _ IH Hin Hx). lia.
        -- intros x [].
      * rewrite E. apply first_newest_snoc_other; [assumption|]. intros _. lia.
    + rewrite dict_get_set_same.
      exists l, []. repeat split; auto.
      * intros x Hin Hx. exfalso. exact (IH x Hin Hx).
      * intros x [].
  - assert (Hsame : dict_get t
                      match dict_get (title s) (collect l) with
                      | Some stored =>
                          if (created_utc s >? created_utc stored)%Z
                          then dict_set (title s) s (collect l)
                          else collect l
                      | None => dict_set (title s) s (collect l)
                      end = dict_get t (collect l)).
    { destruct (dict_get (title s) (collect l)) as [stored|].
      - destruct (created_utc s >? created_utc stored)%Z;
          [apply dict_get_set_other; assumption|reflexivity].
      - apply dict_get_set_other; assumption. }
    rewrite Hsame.
    destruct (dict_get t (collect l)) as [v|].
    + apply first_newest_snoc_other; [assumption|]. intro. contradiction.
    + intros x Hin. apply in_app_or in Hin.
      destruct Hin as [Hin|[->|[]]]; auto.
Qed.

Lemma collect_values_lookup l v :
  In v (dict_values (collect l)) <-> dict_get (title v) (collect l) = Some v.
Proof.
  destruct (collect_well_keyed l) as [Hnd Hk]. unfold dict_values. split.
  - intro H. apply in_map_iff in H. destruct H as [[k v'] [Heq Hin]].
    simpl in Heq. subst v'. rewrite <- (Hk _ _ Hin) in Hin.
    apply In_dict_get; assumption.
  - intro H. apply dict_get_In in H.
    change v with (snd (title v, v)). apply in_map. assumption.
Qed.

Lemma collect_values_titles l :
  map title (dict_values (collect l)) = map fst (collect l).
Proof.
  destruct (collect_well_keyed l) as [_ Hk]. unfold dict_values.
  rewrite map_map. apply map_ext_in. intros [k v] Hin. simpl. auto.
Qed.

(** C1: after the collecting loop the kept submissions have pairwise
    distinct titles, every fetched title is kept once, every kept
    submission was fetched and no fetched submission of its title is
    newer; so of two fetched submissions with one title and different
    creation times the older one is not kept, and when they are all that
    was fetched the newer one alone is kept. *)
Theorem dedup_newest_wins (fetched : list submission) :
  let kept := dict_values (collect fetched) in
  NoDup (map title kept)
  /\ (forall s, In s fetched -> exists k, In k kept /\ title k = title s)
  /\ (forall k, In k kept -> In k fetched)
  /\ (forall k s, In k kept -> In s fetched -> title s = title k ->
                  (created_utc s <= created_utc k)%Z)
  /\ (forall older newer, In older fetched -> In newer fetched ->
                          title older = title newer ->
                          (created_utc older < created_utc newer)%Z ->
                          ~ In older kept)
  /\ (forall s1 s2, title s1 = title s2 ->
                    created_utc s1 <> created_utc s2 ->
                    dict_values (collect [s1; s2]) =
                    [if (created_utc s1 <? created_utc s2)%Z then s2 else s1]).
Proof.
  cbv zeta.
  assert (Bound : forall k s, In k (dict_values (collect fetched)) ->
                              In s fetched -> title s = title k ->
                              (created_utc s <= created_utc k)%Z).
  { intros k s Hk Hs Ht. apply collect_values_lookup in Hk.
    pose proof (collect_lookup fetched (title k)) as H. rewrite Hk in H.
    eapply first_newest_bound; eassumption. }
  repeat split.
  - rewrite collect_values_titles. apply collect_well_keyed.
  - intros s Hs. pose proof (collect_lookup fetched (title s)) as H.
    destruct (dict_get (title s) (collect fetched)) as [k|] eqn:E.
    + exists k. destruct H as [before [after [_ [Ht _]]]].
      split; [|assumption].
      apply collect_values_lookup. rewrite Ht. assumption.
    + exfalso. exact (H s Hs eq_refl).
  - intros k Hk. apply collect_values_lookup in Hk.
    pose proof (collect_lookup fetched (title k)) as H. rewrite Hk in H.
    eapply first_newest_In. eassumption.
  - exact Bound.
  - intros older newer Ho Hn Ht Hlt Hk.
    pose proof (Bound older newer Hk Hn (eq_sym Ht)). lia.
  - intros s1 s2 Ht Hne. unfold collect, collect_step. simpl.
    rewrite <- Ht, String.eqb_refl.
    destruct (Z.gtb_spec (created_utc s2) (created_utc s1)) as [Hgt|Hle];
      simpl; rewrite ?String.eqb_refl; simpl.
    + destruct (Z.ltb_spec (created_utc s1) (created_utc s2));
        [reflexivity|lia].
    + destruct (Z.ltb_spec (created_utc s1) (created_utc s2));
        [lia|reflexivity].
Qed.

(** C9: a stored submission is replaced only by one of the same title
    with a strictly greater creation time; so a kept submission is the
    first fetched one among those of its title with the greatest creation
    time, and of two submissions with one title and equal creation times
    the first-met one is kept. *)
Theorem dedup_tie_keeps_first (fetched : list submission) :
  (forall d s stored,
      dict_get (title s) d = Some stored ->
      (created_utc s <= created_utc stored)%Z ->
      collect_step d s = d)
  /\ (forall d s stored,
         dict_get (title s) d = Some stored ->
         (created_utc stored < created_utc s)%Z ->
         dict_get (title s) (collect_step d s) = Some s)
  /\ (forall k, In k (dict_values (collect fetched)) ->
                first_newest (title k) fetched k)
  /\ (forall s1 s2, title s1 = title s2 ->
                    created_utc s1 = created_utc s2 ->
                    dict_values (collect [s1; s2]) = [s1]).
Proof.
  repeat split.
  - intros d s stored Hget Hle. unfold collect_step. rewrite Hget.
    destruct (Z.gtb_spec (created_utc s) (created_utc stored));
      [lia|reflexivity].
  - intros d s stored Hget Hlt. unfold collect_step. rewrite Hget.
    destruct (Z.gtb_spec (created_utc s) (created_utc stored)); [|lia].
    apply dict_get_set_same.
  - intros k Hk. apply collect_values_lookup in Hk.
    pose proof (collect_lookup fetched (title k)) as H. rewrite Hk in H.
    exact H.
  - intros s1 s2 Ht Hc. unfold collect, collect_step. simpl.
    rewrite <- Ht, String.eqb_refl.
    destruct (Z.gtb_spec (created_utc s2) (created_utc s1)); [lia|].
    reflexivity.
Qed.

(** ** The stable sort *)

Section SortedFacts.

Context {A : Type} (key : A -> Z).

Lemma insert_sorted_perm x l : Permutation (insert_sorted key x l) (x :: l).
Proof.
  induction l as [|y l IH]; simpl; [reflexivity|].
  destruct (key x <=? key y)%Z; [reflexivity|].
  rewrite IH. apply perm_swap.
Qed.

Lemma sorted_perm l : Permutation (sorted key l) l.
Proof.
  induction l as [|x l IH]; simpl; [reflexivity|].
  rewrite insert_sorted_perm. constructor. assumption.
Qed.

Lemma insert_sorted_Sorted x l :
  Sorted (key_le key) l -> Sorted (key_le key) (insert_sorted key x l).
Proof.
  induction 1 as [|y l Hs IH Hhd]; simpl.
  - repeat constructor.
  - destruct (Z.leb_spec (key x) (key y)) as [Hle|Hgt].
    + repeat constructor; assumption.
    + constructor; [assumption|].
      destruct l as [|z l]; simpl.
      * constructor. unfold key_le. lia.
      * destruct (key x <=? key z)%Z; constructor.
        -- unfold key_le. lia.
        -- inversion Hhd. assumption.
Qed.

Lemma sorted_Sorted l : Sorted (key_le key) (sorted key l).
Proof.
  induction l as [|x l IH]; simpl; [constructor|].
  apply insert_sorted_Sorted. assumption.
Qed.

Lemma key_le_trans : Relations_1.Transitive (key_le key).
Proof. intros a b c. unfold key_le. lia. Qed.

Lemma filter_StronglySorted (p : A -> bool) l :
  StronglySorted (key_le key) l -> StronglySorted (key_le key) (filter p l).
Proof.
  induction 1 as [|x l Hs IH Hall]; simpl; [constructor|].
  destruct (p x); [|assumption].
  constructor; [assumption|].
  rewrite Forall_forall in *. intros y Hy. apply filter_In in Hy.
  apply Hall. tauto.
Qed.

Lemma filter_sorted_Sorted (p : A -> bool) l :
  Sorted (key_le key) (filter p (sorted key l)).
Proof.
  apply StronglySorted_Sorted, filter_StronglySorted.
  apply Sorted_StronglySorted; [exact key_le_trans|apply sorted_Sorted].
Qed.

(** The sort is stable: elements of one key keep their order. *)
Lemma insert_sorted_stable k x l :
  filter (fun a => (key a =? k)%Z) (insert_sorted key x l) =
  filter (fun a => (key a =? k)%Z) (x :: l).
Proof.
  induction l as [|y l IH]; [reflexivity|].
  simpl insert_sorted.
  destruct (Z.leb_spec (key x) (key y)) as [Hle|Hgt]; [reflexivity|].
  simpl in *. rewrite IH.
  destruct (Z.eqb_spec (key x) k), (Z.eqb_spec (key y) k);
    try reflexivity; lia.
Qed.

Lemma sorted_stable k l :
  filter (fun a => (key a =? k)%Z) (sorted key l) =
  filter (fun a => (key a =? k)%Z) l.
Proof.
  induction l as [|x l IH]; [reflexivity|].
  simpl sorted. rewrite insert_sorted_stable. simpl. rewrite IH. reflexivity.
Qed.

Lemma filter_key_none k l :
  Forall (fun a => key a <> k) l -> filter (fun a => (key a =? k)%Z) l = [].
Proof.
  induction 1 as [|x l Hx _ IH]; [reflexivity|].
  simpl. destruct (Z.eqb_spec (key x) k); [contradiction|assumption].
Qed.

(** Two lists sorted on the key that agree, key by key, on the elements of
    that key in order are one list. *)
Lemma sorted_by_filters l1 :
  forall l2,
    StronglySorted (key_le key) l1 -> StronglySorted (key_le key) l2 ->
    (forall k, filter (fun a => (key a =? k)%Z) l1 =
               filter (fun a => (key a =? k)%Z) l2) ->
    l1 = l2.
Proof.
  induction l1 as [|x r1 IH]; intros l2 H1 H2 Hk.
  - destruct l2 as [|y r2]; [reflexivity|].
    specialize (Hk (key y)). simpl in Hk. rewrite Z.eqb_refl in Hk.
    discriminate Hk.
  - destruct l2 as [|y r2].
    + specialize (Hk (key x)). simpl in Hk. rewrite Z.eqb_refl in Hk.
      discriminate Hk.
    + inversion H1 as [|? ? Hs1 Hall1]; subst.
      inversion H2 as [|? ? Hs2 Hall2]; subst.
      assert (Hxy : key x = key y).
      { destruct (Z.lt_trichotomy (key x) (key y)) as [Hlt|[Heq|Hgt]];
          [|assumption|]; exfalso.
        - specialize (Hk (key x)). simpl in Hk. rewrite Z.eqb_refl in Hk.
          destruct (Z.eqb_spec (key y) (key x)); [lia|].
          rewrite (filter_key_none (key x) r2) in Hk; [discriminate Hk|].
          eapply Forall_impl; [|exact Hall2].
          unfold key_le. intros a Ha. lia.
        - specialize (Hk (key y)). simpl in Hk. rewrite Z.eqb_refl in Hk.
          destruct (Z.eqb_spec (key x) (key y)); [lia|].
          rewrite (filter_key_none (key y) r1) in Hk; [discriminate Hk|].
          eapply Forall_impl; [|exact Hall1].
          unfold key_le. intros a Ha. lia. }
      assert (Hhead : x = y /\
                      forall k, filter (fun a => (key a =? k)%Z) r1 =
                                filter (fun a => (key a =? k)%Z) r2).
      { split.
        - specialize (Hk (key x)). simpl in Hk.
          rewrite <- Hxy, Z.eqb_refl in Hk. congruence.
        - intro k. specialize (Hk k). simpl in Hk. rewrite <- Hxy in Hk.
          destruct (key x =? k)%Z; congruence. }
      destruct Hhead as [-> Htail]. f_equal. apply IH; assumption.
Qed.

(** Whatever stable sort Python runs, its result is the one of the
    model: a list sorted on the key in which the elements of each key
    keep the order they had in [l] is [sorted key l]. *)
Lemma stable_sort_unique l l' :
  Sorted (key_le key) l' ->
  (forall k, filter (fun a => (key a =? k)%Z) l' =
             filter (fun a => (key a =? k)%Z) l) ->
  l' = sorted key l.
Proof.
  intros Hs Hk. apply sorted_by_filters.
  - apply Sorted_StronglySorted; [exact key_le_trans|assumption].
  - apply Sorted_StronglySorted; [exact key_le_trans|apply sorted_Sorted].
  - intro k. rewrite Hk, sorted_stable. reflexivity.
Qed.

End SortedFacts.

(** C2: the submissions the chapter loop goes through are the kept ones
    in non-decreasing order of creation time (each one at most as new as
    its successor), and so is any selection of them in the same order,
    such as the chapters that pass validation and enter the book. *)
Theorem chapters_ascending (fetched : list submission) :
  Sorted (fun a b => (created_utc a <= created_utc b)%Z)
         (sorted_submissions fetched)
  /\ Permutation (sorted_submissions fetched) (dict_values (collect fetched))
  /\ (forall keep : submission -> bool,
         Sorted (fun a b => (created_utc a <= created_utc b)%Z)
                (filter keep (sorted_submissions fetched)))
  /\ (forall parse : string -> list node,
         Sorted (fun a b => (created_utc a <= created_utc b)%Z)
                (filter (is_valid parse) (sorted_submissions fetched))).
Proof.
  unfold sorted_submissions. repeat split.
  - apply (sorted_Sorted created_utc).
  - apply sorted_perm.
  - intro keep. apply (filter_sorted_Sorted created_utc).
  - intro parse. apply (filter_sorted_Sorted created_utc).
Qed.

(** ** The retention of the delivery log *)

Lemma round53_small n : (n < 2 ^ 53)%N -> Ledger.round53 n = n.
Proof.
  intro H. unfold Ledger.round53. apply N.ltb_lt in H. rewrite H. reflexivity.
Qed.

(** Rounding never takes a count of [2 ^ 53] or more below [2 ^ 53]. *)
Lemma round53_big n : (2 ^ 53 <= n)%N -> (2 ^ 53 <= Ledger.round53 n)%N.
Proof.
  intro H. unfold Ledger.round53.
  destruct (n <? 2 ^ 53)%N eqn:E; [apply N.ltb_lt in E; lia|]. clear E.
  assert (Hlog : (53 <= N.log2 n)%N).
  { apply N.log2_le_pow2; [|exact H].
    apply N.lt_le_trans with (2 ^ 53)%N; [reflexivity|exact H]. }
  set (e := (N.log2 n - 52)%N).
  assert (Hpos : (2 ^ e <> 0)%N) by (apply N.pow_nonzero; discriminate).
  assert (Hsplit : (2 ^ N.log2 n = 2 ^ e * 2 ^ 52)%N).
  { rewrite <- N.pow_add_r. f_equal. unfold e. lia. }
  assert (Hn : (2 ^ N.log2 n <= n)%N).
  { apply N.log2_spec.
    apply N.lt_le_trans with (2 ^ 53)%N; [reflexivity|exact H]. }
  assert (Hq : (2 ^ 52 <= n / 2 ^ e)%N).
  { apply N.div_le_lower_bound; [exact Hpos|]. rewrite <- Hsplit. exact Hn. }
  assert (H53 : (2 ^ 53 <= 2 ^ N.log2 n)%N).
  { apply N.pow_le_mono_r; [discriminate|exact Hlog]. }
  set (q := (n / 2 ^ e)%N) in *.
  assert (Hq' : (2 ^ 52 * 2 ^ e <= q * 2 ^ e)%N).
  { apply N.mul_le_mono_r. exact Hq. }
  assert (Hmul : forall q', (q <= q')%N -> (2 ^ 53 <= q' * 2 ^ e)%N).
  { intros q' Hle.
    apply N.le_trans with (2 ^ N.log2 n)%N; [exact H53|].
    rewrite Hsplit, (N.mul_comm (2 ^ e)).
    apply N.le_trans with (q * 2 ^ e)%N; [exact Hq'|].
    apply N.mul_le_mono_r. exact Hle. }
  cbv zeta.
  destruct ((2 ^ (e - 1) <? n mod 2 ^ e)%N
            || ((n mod 2 ^ e =? 2 ^ (e - 1))%N && N.odd q)).
  - apply Hmul. lia.
  - apply Hmul. lia.
Qed.

(** Against a cap below [2 ^ 53] bytes the rounding changes no verdict. *)
Lemma round53_cap c t :
  (c < 2 ^ 53)%N -> (c <? Ledger.round53 t)%N = (c <? t)%N.
Proof.
  intro Hc. destruct (N.lt_ge_cases t (2 ^ 53)) as [Ht|Ht].
  - rewrite round53_small by exact Ht. reflexivity.
  - pose proof (round53_big t Ht) as Hr.
    pose proof (N.lt_le_trans _ _ _ Hc Hr) as H1.
    pose proof (N.lt_le_trans _ _ _ Hc Ht) as H2.
    apply N.ltb_lt in H1, H2. congruence.
Qed.

Lemma over_cap_25 log_files :
  Ledger.over_cap 25 log_files =
  (25 * 1024 * 1024 <? Ledger.total_size log_files)%N.
Proof.
  unfold Ledger.over_cap. rewrite round53_cap; reflexivity.
Qed.

Lemma over_cap_small max_size_mb log_files :
  (Ledger.total_size log_files < 2 ^ 53)%N ->
  Ledger.over_cap max_size_mb log_files =
  (max_size_mb * (1024 * 1024) <? Ledger.total_size log_files)%N.
Proof.
  intro H. unfold Ledger.over_cap. rewrite round53_small by exact H.
  reflexivity.
Qed.

Lemma over_cap_nil max_size_mb : Ledger.over_cap max_size_mb [] = false.
Proof.
  rewrite over_cap_small by reflexivity. simpl. apply N.ltb_ge. lia.
Qed.

Lemma total_size_sum l :
  Ledger.total_size l = fold_right N.add 0%N (map Ledger.size l).
Proof.
  induction l as [|f l IH]; simpl; [reflexivity|]. rewrite <- IH. reflexivity.
Qed.

Lemma endswith_refl suffix : Ledger.endswith suffix suffix = true.
Proof.
  destruct suffix; simpl; [reflexivity|].
  rewrite Ascii.eqb_refl, String.eqb_refl. reflexivity.
Qed.

Lemma endswith_iff suffix s :
  Ledger.endswith suffix s = true <-> exists stem, s = stem ++ suffix.
Proof.
  split.
  - induction s as [|c s IH]; cbn [Ledger.endswith]; intro H.
    + apply orb_true_iff in H. destruct H as [H|H]; [|discriminate].
      apply String.eqb_eq in H. exists "". simpl. congruence.
    + apply orb_true_iff in H. destruct H as [H|H].
      * apply String.eqb_eq in H. exists "". simpl. congruence.
      * destruct (IH H) as [stem ->]. exists (String c stem). reflexivity.
  - intros [stem ->]. induction stem as [|c stem IH].
    + apply endswith_refl.
    + cbn [append Ledger.endswith]. rewrite IH. apply orb_true_r.
Qed.

Lemma filter_partition_perm {A : Type} (p : A -> bool) l :
  Permutation l (filter p l ++ filter (fun a => negb (p a)) l).
Proof.
  induction l as [|a l IH]; simpl; [constructor|].
  destruct (p a); simpl.
  - constructor. exact IH.
  - apply Permutation_cons_app. exact IH.
Qed.

Lemma clean_loop_spec max_size_mb log_files :
  exists removed kept,
    Ledger.clean_loop max_size_mb log_files = Some (removed, kept)
    /\ log_files = (removed ++ kept)%list
    /\ Ledger.over_cap max_size_mb kept = false
    /\ (forall before f after,
           removed = (before ++ f :: after)%list ->
           Ledger.over_cap max_size_mb (f :: after ++ kept) = true).
Proof.
  induction log_files as [|oldest rest IH].
  - exists [], []. simpl. rewrite over_cap_nil.
    split; [reflexivity|]. split; [reflexivity|].
    split; [reflexivity|].
    intros [|b0 bs] f after H; discriminate.
  - destruct (Ledger.over_cap max_size_mb (oldest :: rest)) eqn:Over.
    + destruct IH as [removed [kept [Hrun [Hsplit [Hunder Hneeded]]]]].
      exists (oldest :: removed), kept.
      simpl Ledger.clean_loop. rewrite Over, Hrun.
      split; [reflexivity|]. split; [simpl; congruence|].
      split; [assumption|].
      intros [|b before] f after H; simpl in H; inversion H; subst.
      * exact Over.
      * eapply Hneeded. reflexivity.
    + exists [], (oldest :: rest).
      simpl Ledger.clean_loop. rewrite Over.
      split; [reflexivity|]. split; [reflexivity|].
      split; [reflexivity|].
      intros [|b0 bs] f after H; discriminate.
Qed.

Lemma StronglySorted_app_le {A : Type} (R : A -> A -> Prop) l1 l2 :
  StronglySorted R (l1 ++ l2) ->
  forall a b, In a l1 -> In b l2 -> R a b.
Proof.
  induction l1 as [|x l1 IH]; simpl; intros H a b Ha Hb; [contradiction|].
  inversion H as [|? ? Hs Hall]; subst.
  destruct Ha as [->|Ha].
  - rewrite Forall_forall in Hall. apply Hall. apply in_or_app. auto.
  - eapply IH; eassumption.
Qed.

(** C5: on any log directory, [clean_old_logs] with the cap of 25 MiB
    ends without error.  The entries of the directory are the files it
    removes, the files it keeps and the entries it leaves alone; the first
    two are the entries whose name ends in [.log], the last are those
    whose name does not.  The removed files, in the order of removal,
    followed by the kept ones are in ascending order of creation time
    (entries of the same creation time in the order of the listing), so
    removal goes oldest first and no kept file is older than a removed
    one; every removal happened with the sizes of the files still there
    summing to more than 25 * 1024 * 1024 bytes; and at the end the sizes
    of the kept files sum to at most that (also when none is left). *)
Theorem clean_old_logs_oldest_first (log_dir : list Ledger.file) :
  exists removed kept others,
    Ledger.clean_old_logs log_dir 25 = Some (removed, kept)
    /\ Permutation log_dir (removed ++ kept ++ others)
    /\ Forall (fun f => exists stem, Ledger.name f = stem ++ ".log")
              (removed ++ kept)
    /\ Forall (fun f => forall stem, Ledger.name f <> stem ++ ".log") others
    /\ Sorted (fun a b => (Ledger.ctime a <= Ledger.ctime b)%Z)
              (removed ++ kept)
    /\ (forall t,
           filter (fun f => (Ledger.ctime f =? t)%Z) (removed ++ kept) =
           filter (fun f => (Ledger.ctime f =? t)%Z)
                  (filter (fun f => Ledger.endswith ".log" (Ledger.name f))
                          log_dir))
    /\ (forall r k, In r removed -> In k kept ->
                    (Ledger.ctime r <= Ledger.ctime k)%Z)
    /\ (forall before f after,
           removed = (before ++ f :: after)%list ->
           (25 * 1024 * 1024 <
            fold_right N.add 0 (map Ledger.size (f :: after ++ kept)))%N)
    /\ (fold_right N.add 0 (map Ledger.size kept) <= 25 * 1024 * 1024)%N.
Proof.
  unfold Ledger.clean_old_logs.
  destruct (clean_loop_spec 25 (sorted Ledger.ctime (Ledger.glob_log log_dir)))
    as [removed [kept [Hrun [Hsplit [Hunder Hneeded]]]]].
  exists removed, kept,
    (filter (fun f => negb (Ledger.endswith ".log" (Ledger.name f))) log_dir).
  assert (Hsorted : Sorted (fun a b => (Ledger.ctime a <= Ledger.ctime b)%Z)
                           (removed ++ kept)).
  { rewrite <- Hsplit. apply (sorted_Sorted Ledger.ctime). }
  assert (Hperm : Permutation (Ledger.glob_log log_dir) (removed ++ kept)).
  { rewrite <- Hsplit. symmetry. apply sorted_perm. }
  split; [exact Hrun|].
  split.
  { rewrite app_assoc. etransitivity.
    - apply (filter_partition_perm
               (fun f => Ledger.endswith ".log" (Ledger.name f))).
    - apply Permutation_app_tail. exact Hperm. }
  split.
  { apply Forall_forall. intros f Hf.
    apply (Permutation_in _ (Permutation_sym Hperm)) in Hf.
    unfold Ledger.glob_log in Hf. apply filter_In in Hf.
    apply endswith_iff. apply Hf. }
  split.
  { apply Forall_forall. intros f Hf stem Hname.
    apply filter_In in Hf. destruct Hf as [_ Hf].
    assert (Hends : Ledger.endswith ".log" (Ledger.name f) = true)
      by (apply endswith_iff; exists stem; exact Hname).
    rewrite Hends in Hf. discriminate. }
  split; [exact Hsorted|].
  split.
  { intro t. rewrite <- Hsplit. apply sorted_stable. }
  split.
  { apply StronglySorted_app_le.
    apply Sorted_StronglySorted; [|exact Hsorted].
    intros a b c. lia. }
  split.
  - intros before f after H. specialize (Hneeded before f after H).
    rewrite over_cap_25, total_size_sum in Hneeded.
    apply N.ltb_lt in Hneeded. exact Hneeded.
  - rewrite over_cap_25, total_size_sum in Hunder.
    apply N.ltb_ge in Hunder. exact Hunder.
Qed.

(** ** The retry decorator and [send_email] *)

Lemma world_eq w events made t c :
  t = (trace w ++ events)%list -> c = (calls w + made)%nat ->
  {| trace := t; calls := c; summary := summary w;
     failed_files := failed_files w |} = advance w events made.
Proof. intros -> ->. reflexivity. Qed.

(** One external call under the decorator: at most three calls, a wait of
    4 before each retry, [RetryError] after the third failure. *)
Lemma retry_ext oracle ev w :
  retry (ext oracle ev) w =
  match oracle (calls w) with
  | None => (Ok tt, advance w [ev] 1)
  | Some _ =>
      match oracle (S (calls w)) with
      | None => (Ok tt, advance w [ev; Sleep 4; ev] 2)
      | Some _ =>
          match oracle (S (S (calls w))) with
          | None => (Ok tt, advance w [ev; Sleep 4; ev; Sleep 4; ev] 3)
          | Some (class, text) =>
              (Raise (RetryError (Error class text)),
               advance w [ev; Sleep 4; ev; Sleep 4; ev] 3)
          end
      end
  end.
Proof.
  unfold retry. cbn [retry_loop]. unfold ext at 1.
  destruct (oracle (calls w)) as [[c1 t1]|] eqn:E1.
  - change (stop_after_attempt 3 1) with false. cbv iota.
    unfold bind at 1, emit at 1. cbn [retry_loop trace calls summary failed_files].
    unfold ext at 1. cbn [trace calls summary failed_files].
    destruct (oracle (S (calls w))) as [[c2 t2]|] eqn:E2.
    + change (stop_after_attempt 3 2) with false. cbv iota.
      unfold bind at 1, emit at 1.
      cbn [retry_loop trace calls summary failed_files].
      unfold ext at 1. cbn [trace calls summary failed_files].
      destruct (oracle (S (S (calls w)))) as [[c3 t3]|] eqn:E3.
      * change (stop_after_attempt 3 3) with true. cbv iota.
        f_equal. apply world_eq; [|lia].
        rewrite <- !app_assoc. reflexivity.
      * f_equal. apply world_eq; [|lia].
        rewrite <- !app_assoc. reflexivity.
    + f_equal. apply world_eq; [|lia].
      rewrite <- !app_assoc. reflexivity.
  - f_equal. apply world_eq; [reflexivity|lia].
Qed.

Lemma retry_loop_fuel {A : Type} (wait : nat -> Z) (f : M A) :
  forall n fuel attempt_number w,
    (3 - attempt_number <= n)%nat -> (n <= fuel)%nat ->
    retry_loop (stop_after_attempt 3) wait fuel attempt_number f w =
    retry_loop (stop_after_attempt 3) wait n attempt_number f w.
Proof.
  induction n as [|n IH]; intros fuel attempt_number w Hn Hfuel.
  - assert (Hstop : stop_after_attempt 3 attempt_number = true)
      by (apply Nat.leb_le; lia).
    destruct fuel; cbn [retry_loop]; destruct (f w) as [[a|e|] w'];
      rewrite ?Hstop; reflexivity.
  - destruct fuel as [|fuel]; [lia|].
    cbn [retry_loop]. destruct (f w) as [[a|e|] w']; try reflexivity.
    destruct (stop_after_attempt 3 attempt_number); [reflexivity|].
    unfold bind, emit. apply IH; lia.
Qed.

(** C6, as the code has it: [send_email] makes at most three attempts;
    it returns at the first attempt that succeeds; it waits 4 time units
    before the second attempt and 4 again before the third (the
    exponential term 1, 2 is raised to the floor of 4); after a third
    failure it raises [RetryError] around that failure and makes no
    further attempt.  More turns of the loop change nothing. *)
Theorem send_email_three_attempts (oracle : nat -> option (string * string))
  (cfg : config) (file_path : option string)
  (story_title receiver_email : string) (error_message : option string)
  (w : world) :
  let m := Smtp (compose_message cfg file_path story_title receiver_email
                                 error_message) in
  send_email oracle cfg file_path story_title receiver_email error_message w =
  match oracle (calls w) with
  | None => (Ok tt, advance w [m] 1)
  | Some _ =>
      match oracle (S (calls w)) with
      | None => (Ok tt, advance w [m; Sleep 4; m] 2)
      | Some _ =>
          match oracle (S (S (calls w))) with
          | None => (Ok tt, advance w [m; Sleep 4; m; Sleep 4; m] 3)
          | Some (class, text) =>
              (Raise (RetryError (Error class text)),
               advance w [m; Sleep 4; m; Sleep 4; m] 3)
          end
      end
  end
  /\ (forall fuel, (3 <= fuel)%nat ->
        retry_loop (stop_after_attempt 3) (wait_exponential 1 4 60) fuel 1
          (send_email_body oracle cfg file_path story_title receiver_email
                           error_message) w =
        send_email oracle cfg file_path story_title receiver_email
                   error_message w)
  /\ wait_exponential 1 4 60 1 = 4%Z
  /\ wait_exponential 1 4 60 2 = 4%Z.
Proof.
  cbv zeta. split; [|split; [|split; reflexivity]].
  - unfold send_email, send_email_body. apply retry_ext.
  - intros fuel Hfuel. unfold send_email, retry.
    apply retry_loop_fuel; lia.
Qed.

(** C6, as the claim words it, fails: with the transport down the two
    waits of [send_email] are 4 and 4, so the second is not the doubled
    delay 8 of the specification's sequence. *)
Lemma send_email_waits_do_not_double :
  ~ (forall oracle cfg file_path story_title receiver_email error_message
            w k d,
        nth_error
          (sleeps (trace (snd (send_email oracle cfg file_path story_title
                                          receiver_email error_message w))))
          k = Some d ->
        d = spec_backoff (S k)).
Proof.
  intro H.
  specialize (H smtp_down sample_config None "Bot Started"
                "admin@example.org" (Some "The bot has started.")
                initial_world 1%nat 4%Z eq_refl).
  discriminate H.
Qed.

(** ** What a run adds to the trace *)

Lemma extends_ret {A : Type} P (a : A) : extends P (ret a).
Proof. intro w. exists []. simpl. rewrite app_nil_r. auto. Qed.


Lemma extends_try_except {A : Type} P (body : M A) (handler : exn -> M A) :
  extends P body -> (forall e, extends P (handler e)) ->
  extends P (try_except body handler).
Proof.
  intros Hb Hh w. unfold try_except.
  destruct (Hb w) as [new [Ht Hp]].
  destruct (body w) as [[a|e|] w1]; simpl in Ht.
  - exists new. auto.
  - destruct (Hh e w1) as [new' [Ht' Hp']].
    exists (new ++ new')%list. rewrite Ht', Ht, app_assoc.
    split; [reflexivity|apply Forall_app; auto].
  - exists new. auto.
Qed.



Lemma extends_retry_loop {A : Type} (P : event -> Prop) stop wait (f : M A) :
  extends P f -> (forall d, P (Sleep d)) ->
  forall fuel attempt_number,
    extends P (retry_loop stop wait fuel attempt_number f).
Proof.
  intros Hf Hs. induction fuel as [|fuel IH]; intros attempt_number w;
    cbn [retry_loop]; destruct (Hf w) as [new [Ht Hp]];
    destruct (f w) as [[a|e|] w1]; simpl in Ht;
    try (exists new; simpl; auto; fail);
    destruct (stop attempt_number);
    try (exists new; simpl; auto; fail).
  unfold bind, emit.
  destruct (IH (S attempt_number)
               {| trace := trace w1 ++ [Sleep (wait attempt_number)];
                  calls := calls w1; summary := summary w1;
                  failed_files := failed_files w1 |})
    as [new' [Ht' Hp']].
  exists (new ++ Sleep (wait attempt_number) :: new')%list.
  rewrite Ht'. cbn [trace]. rewrite Ht, <- !app_assoc.
  split; [reflexivity|]. apply Forall_app. auto.
Qed.




(** When every call of [f] first adds [ev] and then events of [P], so
    does [f] under the retry loop. *)
Lemma retry_loop_first_event {A : Type} (P : event -> Prop) ev stop wait
  (f : M A) :
  (forall w, exists rest,
      trace (snd (f w)) = (trace w ++ ev :: rest)%list /\ Forall P rest) ->
  P ev -> (forall d, P (Sleep d)) ->
  forall fuel attempt_number w, exists rest,
    trace (snd (retry_loop stop wait fuel attempt_number f w)) =
    (trace w ++ ev :: rest)%list /\ Forall P rest.
Proof.
  intros Hf Hev Hs fuel attempt_number w.
  assert (Hext : extends P f).
  { intro w0. destruct (Hf w0) as [r0 [Ht0 Hp0]].
    exists (ev :: r0). auto. }
  destruct (Hf w) as [rest [Ht Hp]].
  destruct fuel as [|fuel]; cbn [retry_loop];
    destruct (f w) as [[a|e|] w1]; simpl in Ht;
    try (exists rest; simpl; auto; fail);
    destruct (stop attempt_number);
    try (exists rest; simpl; auto; fail).
  unfold bind at 1, emit at 1.
  destruct (extends_retry_loop P stop wait f Hext Hs fuel (S attempt_number)
              {| trace := trace w1 ++ [Sleep (wait attempt_number)];
                 calls := calls w1; summary := summary w1;
                 failed_files := failed_files w1 |})
    as [new' [Ht' Hp']].
  exists (rest ++ Sleep (wait attempt_number) :: new')%list.
  rewrite Ht'. cbn [trace]. rewrite Ht, <- !app_assoc.
  split; [reflexivity|]. apply Forall_app. auto.
Qed.

(** ** Steps of a run *)

Lemma bind_ok {A B : Type} (f : M A) (k : A -> M B) w a w1 :
  f w = (Ok a, w1) -> bind f k w = k a w1.
Proof. intro H. unfold bind. rewrite H. reflexivity. Qed.


Lemma advance_nil w : advance w [] 0 = w.
Proof.
  destruct w. unfold advance. cbn [trace calls summary failed_files].
  rewrite app_nil_r, Nat.add_0_r. reflexivity.
Qed.

Lemma ext_ok oracle ev w :
  oracle (calls w) = None -> ext oracle ev w = (Ok tt, advance w [ev] 1).
Proof.
  intro H. unfold ext. rewrite H. f_equal. apply world_eq; [reflexivity|lia].
Qed.



Lemma has_body_body s html : selftext_html s = Some html -> has_body s = true.
Proof. unfold has_body. intros ->. reflexivity. Qed.

Lemma html_of_body s html : selftext_html s = Some html -> html_of s = html.
Proof. unfold html_of. intros ->. reflexivity. Qed.

Lemma is_valid_body parse s html :
  selftext_html s = Some html ->
  is_valid parse s = fst (validate_story parse (title s) html).
Proof. unfold is_valid. intros ->. reflexivity. Qed.

(** The chapter loop on submissions that all have a body: it returns the
    chapters of those that pass validation, and logs the others. *)
Lemma chapter_loop_spec parse decode submissions :
  Forall (fun s => selftext_html s <> None) submissions ->
  forall items toc spine w,
    let chapters :=
      map (fun s => make_chapter parse decode (title s) (html_of s))
          (filter (is_valid parse) submissions) in
    chapter_loop parse decode submissions items toc spine w =
    (Ok (items ++ chapters, toc ++ chapters, spine ++ map Item chapters)%list,
     advance w (map LogError (rejection_messages parse submissions)) 0).
Proof.
  induction 1 as [|s rest Hs _ IH]; intros items toc spine w; cbv zeta.
  - simpl. rewrite !app_nil_r, advance_nil. reflexivity.
  - destruct (selftext_html s) as [html|] eqn:Eb; [clear Hs|congruence].
    cbn [chapter_loop]. unfold rejection_messages in *. cbn [filter].
    rewrite (is_valid_body parse s html Eb), (has_body_body s html Eb), Eb.
    destruct (validate_story parse (title s) html) as [ok msg] eqn:E.
    cbn [fst snd andb]. destruct ok; cbn [negb].
    + rewrite IH. cbv zeta. cbn [map]. rewrite (html_of_body s html Eb).
      rewrite <- !app_assoc. reflexivity.
    + unfold bind, log_error, emit. rewrite IH. cbv zeta. f_equal.
      cbn [map]. rewrite (html_of_body s html Eb), E. cbn [snd].
      unfold advance. cbn [trace calls summary failed_files].
      rewrite <- app_assoc. reflexivity.
Qed.

(** The chapter loop on submissions of which one has no body: it logs the
    rejections before that one and raises [TypeError] there. *)
Lemma chapter_loop_no_body parse decode before s after :
  Forall (fun s => selftext_html s <> None) before ->
  selftext_html s = None ->
  forall items toc spine w,
    chapter_loop parse decode (before ++ s :: after) items toc spine w =
    (Raise none_has_no_len,
     advance w (map LogError (rejection_messages parse before)) 0).
Proof.
  intros Hbefore Hs.
  induction Hbefore as [|s0 rest Hs0 _ IH]; intros items toc spine w.
  - cbn [app chapter_loop]. rewrite Hs. unfold raise.
    cbn [rejection_messages filter map]. rewrite advance_nil. reflexivity.
  - destruct (selftext_html s0) as [html|] eqn:Eb; [clear Hs0|congruence].
    cbn [app chapter_loop]. unfold rejection_messages in *. cbn [filter].
    rewrite (is_valid_body parse s0 html Eb), (has_body_body s0 html Eb), Eb.
    destruct (validate_story parse (title s0) html) as [ok msg] eqn:E.
    cbn [fst snd andb]. destruct ok; cbn [negb].
    + apply IH.
    + unfold bind, log_error, emit. rewrite IH. f_equal.
      cbn [map]. rewrite (html_of_body s0 html Eb), E. cbn [snd].
      unfold advance. cbn [trace calls summary failed_files].
      rewrite <- app_assoc. reflexivity.
Qed.

(** A list either has a body in every submission or splits at the first
    one without. *)
Lemma first_without_body (submissions : list submission) :
  Forall (fun s => selftext_html s <> None) submissions
  \/ exists before s after,
      submissions = (before ++ s :: after)%list
      /\ Forall (fun s => selftext_html s <> None) before
      /\ selftext_html s = None.
Proof.
  induction submissions as [|s rest IH]; [left; constructor|].
  destruct (selftext_html s) as [html|] eqn:Eb.
  - destruct IH as [Hall|[before [s1 [after [-> [Hb Hs1]]]]]].
    + left. constructor; [congruence|exact Hall].
    + right. exists (s :: before), s1, after.
      split; [reflexivity|]. split; [|exact Hs1].
      constructor; [congruence|exact Hb].
  - right. exists [], s, rest. split; [reflexivity|].
    split; [constructor|exact Eb].
Qed.




(** ** One story: the book is written and its delivery attempted *)

Lemma sorted_submissions_In fetched s :
  In s (sorted_submissions fetched) -> In s fetched.
Proof.
  unfold sorted_submissions. intro H.
  apply (Permutation_in _ (sorted_perm created_utc _)) in H.
  apply collect_values_lookup in H.
  pose proof (collect_lookup fetched (title s)) as Hl. rewrite H in Hl.
  eapply first_newest_In. eassumption.
Qed.






(** ** The run with the bot disabled *)

Lemma download_stories_body_disabled parse decode reddit oracle cfg w :
  bot_enabled cfg = false ->
  download_stories_body parse decode reddit oracle cfg w =
  send_email oracle cfg None "Stories Download Summary" (error_receiver cfg)
    (Some ("Summary:" ++ nl ++ nl))
    {| trace := trace w; calls := calls w; summary := [];
       failed_files := [] |}.
Proof.
  intro H. unfold download_stories_body. rewrite H. reflexivity.
Qed.

(** C8: with [bot_enabled] false, whatever the mail transport does, a run
    of [download_stories] starts with an SMTP session for the summary
    message, whose text is the header followed by no story line, and
    beyond that only repeats that session and waits: no directory, no
    fetch, no book, no removal, no log entry.  When the transport works
    the run is that one session, for [download_stories] and for [job],
    and both lists of the run are empty. *)
Theorem disabled_bot_sends_only_summary
  (parse : string -> list node) (decode : list node -> string)
  (reddit : string -> string -> list submission)
  (oracle : nat -> option (string * string)) (cfg : config) (w : world) :
  bot_enabled cfg = false ->
  let m := empty_summary_message cfg in
  let done :=
    (Ok tt, {| trace := trace w ++ [Smtp m]; calls := S (calls w);
               summary := []; failed_files := [] |}) in
  (exists rest,
      trace (snd (download_stories parse decode reddit oracle cfg w)) =
      (trace w ++ Smtp m :: rest)%list
      /\ Forall (fun ev => ev = Smtp m \/ exists d, ev = Sleep d) rest)
  /\ (oracle (calls w) = None ->
      download_stories parse decode reddit oracle cfg w = done
      /\ job parse decode reddit oracle cfg w = done).
Proof.
  intro Hoff. cbv zeta.
  assert (Hbody : forall w0, exists rest,
             trace (snd (download_stories_body parse decode reddit oracle
                                               cfg w0)) =
             (trace w0 ++ Smtp (empty_summary_message cfg) :: rest)%list
             /\ Forall (fun ev => ev = Smtp (empty_summary_message cfg)
                                  \/ exists d, ev = Sleep d) rest).
  { intro w0. rewrite (download_stories_body_disabled _ _ _ _ _ _ Hoff).
    unfold send_email, send_email_body. rewrite retry_ext.
    cbn [calls].
    destruct (oracle (calls w0)) as [[c1 t1]|];
      [destruct (oracle (S (calls w0))) as [[c2 t2]|];
       [destruct (oracle (S (S (calls w0)))) as [[c3 t3]|]|]|];
      cbn [snd trace advance];
      eexists; (split; [reflexivity|]);
      repeat first
        [ apply Forall_nil
        | apply Forall_cons;
          [first [left; reflexivity | right; eexists; reflexivity]|] ]. }
  split.
  - unfold download_stories, retry.
    apply (retry_loop_first_event _ _ _ _ _ Hbody).
    + left. reflexivity.
    + intro d. right. exists d. reflexivity.
  - intro Hfine.
    assert (Hrun : download_stories parse decode reddit oracle cfg w =
                   (Ok tt, {| trace := trace w ++
                                [Smtp (empty_summary_message cfg)];
                              calls := S (calls w);
                              summary := []; failed_files := [] |})).
    { unfold download_stories, retry. cbn [retry_loop].
      rewrite (download_stories_body_disabled _ _ _ _ _ _ Hoff).
      unfold send_email, send_email_body. rewrite retry_ext.
      cbn [calls]. rewrite Hfine. f_equal.
      unfold advance. cbn [trace calls summary failed_files].
      rewrite Nat.add_1_r. reflexivity. }
    split; [exact Hrun|].
    unfold job, try_except. rewrite Hrun. reflexivity.
Qed.

(** C8 on a sample: the disabled configuration with a working transport. *)
Lemma disabled_bot_sends_only_summary_witness :
  bot_enabled disabled_config = false
  /\ mails (trace (snd (job paragraph_parse (fun _ => "")
                            (fun _ _ => scenario_posts) all_fine
                            disabled_config initial_world))) =
     [ {| msg_from := "bot@example.org"; msg_to := "admin@example.org";
          msg_subject := "Error: Stories Download Summary";
          msg_attachment := None;
          msg_text := Some ("Summary:" ++ nl ++ nl) |} ].
Proof.
  split; [reflexivity|].
  destruct (disabled_bot_sends_only_summary paragraph_parse (fun _ => "")
              (fun _ _ => scenario_posts) all_fine disabled_config
              initial_world eq_refl) as [_ Hfine].
  destruct (Hfine eq_refl) as [_ Hjob].
  rewrite Hjob. reflexivity.
Defined.


(** ** A failed delivery and the summary mail *)

(** C4, the code at a failing delivery: the three sessions of the
    delivery fail, the error notice and the summary go out.  The path of
    the undelivered book is put on [failed_files], but the text of the
    summary mail is the header and the one outcome line, and the path
    does not occur in it. *)
Lemma failed_path_absent_from_summary_mail :
  let run :=
    download_stories_body paragraph_parse (fun _ => "") (fun _ _ => [])
                          delivery_fails sample_config initial_world in
  let path := "/home/bot/Beneath Two Suns/Beneath Two Suns.epub" in
  let line :=
    "Failed to send and delete EPUB for Beneath Two Suns: RetryError[<Future state=finished raised SMTPException>]" in
  fst run = Ok tt
  /\ failed_files (snd run) = [path]
  /\ summary (snd run) = [line]
  /\ last (mails (trace (snd run))) (empty_summary_message sample_config) =
     {| msg_from := "bot@example.org"; msg_to := "admin@example.org";
        msg_subject := "Error: Stories Download Summary";
        msg_attachment := None;
        msg_text := Some ("Summary:" ++ nl ++ nl ++ line) |}
  /\ Py.contains path ("Summary:" ++ nl ++ nl ++ line) = false
  /\ Forall (fun m => match msg_text m with
                      | Some body => Py.contains path body = false
                      | None => True
                      end) (mails (trace (snd run))).
Proof.
  cbv zeta. vm_compute. repeat split; repeat constructor.
Qed.

(** ** The claims on samples *)

(** C1 on the scenario: chapter 1 of time 100 gives way to the one of
    time 150. *)
Lemma dedup_newest_wins_witness :
  ~ In chapter_1_first (dict_values (collect scenario_posts))
  /\ dict_values (collect [chapter_1_first; chapter_1_again]) =
     [chapter_1_again].
Proof.
  destruct (dedup_newest_wins scenario_posts)
    as [_ [_ [_ [_ [Holder _]]]]].
  destruct (dedup_newest_wins []) as [_ [_ [_ [_ [_ Hpair]]]]].
  split.
  - apply (Holder chapter_1_first chapter_1_again).
    + simpl. auto.
    + simpl. auto.
    + reflexivity.
    + simpl. lia.
  - apply (Hpair chapter_1_first chapter_1_again).
    + reflexivity.
    + simpl. lia.
Defined.

(** C9 on a sample: of two posts of chapter 1 at time 100 the first one
    stays. *)
Lemma dedup_tie_keeps_first_witness :
  dict_values (collect [chapter_1_first; chapter_1_same_time]) =
  [chapter_1_first].
Proof.
  destruct (dedup_tie_keeps_first []) as [_ [_ [_ Hpair]]].
  apply Hpair; reflexivity.
Defined.

(** C3 on samples: 99 characters are rejected, an empty [h2] is rejected
    at 100 characters, a paragraph of 100 characters is accepted. *)
Lemma validate_story_spec_witness :
  fst (validate_story paragraph_parse "Chapter 1" body_of_99) = false
  /\ fst (validate_story empty_heading_parse "Chapter 1" body_of_100) = false
  /\ validate_story paragraph_parse "Chapter 1" body_of_100 = (true, "").
Proof.
  split; [|split].
  - destruct (validate_story_spec paragraph_parse "Chapter 1" body_of_99)
      as [_ [H99 _]].
    apply H99. reflexivity.
  - destruct (validate_story_spec empty_heading_parse "Chapter 1" body_of_100)
      as [_ [_ [_ [Hh2 _]]]].
    apply Hh2. exists []. apply element_top. simpl. auto.
  - destruct (validate_story_spec paragraph_parse "Chapter 1" body_of_100)
      as [_ [_ [_ [_ Hok]]]].
    apply Hok.
    + simpl. lia.
    + intros name attrs contents Hel _.
      apply element_of_descendants in Hel. simpl in Hel.
      destruct Hel as [Heq|[Heq|[]]]; [|discriminate].
      inversion Heq; subst.
      exists "x"%char. split; [simpl; auto|reflexivity].
Defined.

(** ** More on [sanitize_title] and the paths built from it *)

Lemma sanitize_title_app a b :
  sanitize_title (a ++ b) = sanitize_title a ++ sanitize_title b.
Proof.
  induction a as [|c a IH]; simpl; [reflexivity|]. rewrite IH. reflexivity.
Qed.

Lemma sanitize_title_chars title :
  Forall (fun c => is_unsafe c = false)
         (list_ascii_of_string (sanitize_title title)).
Proof.
  induction title as [|c rest IH]; simpl; constructor; [|assumption].
  destruct (is_unsafe c) eqn:E; [reflexivity|assumption].
Qed.

(** X1: the sanitized title has the length of the title and holds none of
    the nine characters; every character that is not one of them stays
    where it was. *)
Theorem sanitize_title_safe (title : string) :
  String.length (sanitize_title title) = String.length title
  /\ Forall (fun c => is_unsafe c = false)
            (list_ascii_of_string (sanitize_title title))
  /\ (forall n c, String.get n title = Some c -> is_unsafe c = false ->
                  String.get n (sanitize_title title) = Some c)
  /\ (forall n c, String.get n title = Some c -> is_unsafe c = true ->
                  String.get n (sanitize_title title) = Some "_"%char).
Proof.
  split; [|split; [apply sanitize_title_chars|split]].
  - induction title as [|c rest IH]; simpl; congruence.
  - induction title as [|c rest IH]; intros n x Hget Hsafe;
      [discriminate|].
    destruct n as [|n]; simpl in *.
    + inversion Hget; subst. rewrite Hsafe. reflexivity.
    + eauto.
  - induction title as [|c rest IH]; intros n x Hget Hbad;
      [discriminate|].
    destruct n as [|n]; simpl in *.
    + inversion Hget; subst. rewrite Hbad. reflexivity.
    + eauto.
Qed.

(** X2: the titles the sanitizer leaves alone are those without any of
    the nine characters. *)
Theorem sanitize_title_fixed_iff (title : string) :
  sanitize_title title = title <->
  Forall (fun c => is_unsafe c = false) (list_ascii_of_string title).
Proof.
  split.
  - intro H. rewrite <- H. apply sanitize_title_chars.
  - induction title as [|c rest IH]; simpl; intro H; [reflexivity|].
    inversion H as [|? ? Hc Hrest]; subst.
    rewrite Hc, (IH Hrest). reflexivity.
Qed.

Lemma contains_slash_iff s :
  Py.contains "/" s = true <-> In "/"%char (list_ascii_of_string s).
Proof.
  induction s as [|c s IH]; [simpl; split; [discriminate|tauto]|].
  cbn [Py.contains Py.startswith list_ascii_of_string In].
  rewrite orb_true_iff, IH, andb_true_r.
  destruct (Ascii.eqb_spec "/"%char c); split; intro H; auto.
  - destruct H as [H|H]; [discriminate|auto].
  - destruct H as [H|H]; [congruence|auto].
Qed.

Lemma no_slash_chars s :
  Forall (fun c => is_unsafe c = false) (list_ascii_of_string s) ->
  Py.contains "/" s = false.
Proof.
  intro H. destruct (Py.contains "/" s) eqn:E; [|reflexivity].
  apply contains_slash_iff in E. rewrite Forall_forall in H.
  apply H in E. discriminate.
Qed.

Lemma list_ascii_app a b :
  list_ascii_of_string (a ++ b) =
  (list_ascii_of_string a ++ list_ascii_of_string b)%list.
Proof. induction a as [|c a IH]; simpl; congruence. Qed.

Lemma basename_no_slash b : Py.contains "/" b = false -> Py.basename b = b.
Proof.
  destruct b as [|c rest]; [reflexivity|]. intro H.
  cbn [Py.contains Py.startswith] in H. apply orb_false_iff in H.
  destruct H as [Hc Hrest]. rewrite andb_true_r in Hc.
  cbn [Py.basename]. rewrite Hrest.
  rewrite Ascii.eqb_sym, Hc. reflexivity.
Qed.

Lemma basename_after_slash a b :
  Py.ends_with_slash a = true -> Py.contains "/" b = false ->
  Py.basename (a ++ b) = b.
Proof.
  intros Ha Hb. induction a as [|c a IH]; [discriminate|].
  destruct a as [|c' a'].
  - cbn [Py.ends_with_slash] in Ha. cbn [append Py.basename].
    rewrite Hb, Ha. reflexivity.
  - assert (Ha' : Py.ends_with_slash (String c' a') = true) by exact Ha.
    cbn [append Py.basename] in *.
    assert (Hin : Py.contains "/" (String c' (a' ++ b)) = true).
    { apply contains_slash_iff.
      change (String c' (a' ++ b)) with (String c' a' ++ b).
      rewrite list_ascii_app. apply in_or_app. left.
      clear -Ha'. revert c' Ha'.
      induction a' as [|d a' IH]; intros c' Ha'.
      - cbn [Py.ends_with_slash] in Ha'. apply Ascii.eqb_eq in Ha'.
        subst. left. reflexivity.
      - right. apply IH. exact Ha'. }
    rewrite Hin. apply IH. exact Ha'.
Qed.

Lemma ends_with_slash_app a : Py.ends_with_slash (a ++ "/") = true.
Proof.
  induction a as [|c a IH]; [reflexivity|].
  cbn [append]. destruct (a ++ "/") eqn:E.
  - destruct a; discriminate.
  - cbn [Py.ends_with_slash]. exact IH.
Qed.

Lemma string_app_assoc (a b c : string) : (a ++ b) ++ c = a ++ b ++ c.
Proof. induction a as [|x a IH]; simpl; congruence. Qed.

Lemma startswith_app a b : Py.startswith a (a ++ b) = true.
Proof.
  induction a as [|c a IH]; simpl; [reflexivity|].
  rewrite Ascii.eqb_refl, IH. reflexivity.
Qed.

Lemma path_join_relative a b :
  Py.startswith "/" b = false ->
  Py.path_join a b = a ++ b \/ Py.path_join a b = a ++ "/" ++ b.
Proof.
  intro H. unfold Py.path_join. rewrite H.
  destruct (Py.falsy a || Py.ends_with_slash a); auto.
Qed.

Lemma basename_path_join a b :
  Py.contains "/" b = false -> Py.basename (Py.path_join a b) = b.
Proof.
  intro Hb.
  assert (Hs : Py.startswith "/" b = false).
  { destruct b as [|c rest]; [reflexivity|].
    cbn [Py.contains] in Hb. apply orb_false_iff in Hb. tauto. }
  unfold Py.path_join. rewrite Hs.
  destruct (Py.falsy a || Py.ends_with_slash a) eqn:E.
  - apply orb_true_iff in E. destruct E as [E|E].
    + destruct a; [|discriminate]. apply basename_no_slash. exact Hb.
    + apply basename_after_slash; assumption.
  - rewrite <- string_app_assoc.
    apply basename_after_slash; [apply ends_with_slash_app|exact Hb].
Qed.

(** X3: the path of the e-book of a story starts with the working
    directory (the join never drops it, because a sanitized title holds no
    slash) and its last component is the sanitized story name followed by
    [.epub]; this is the name the attachment of the mail gets. *)
Theorem epub_path_under_cwd (cfg : config) (story receiver_email : string) :
  Py.startswith (cwd cfg) (epub_path_of cfg story) = true
  /\ Py.basename (epub_path_of cfg story) = sanitize_title story ++ ".epub"
  /\ msg_attachment
       (compose_message cfg (Some (epub_path_of cfg story)) story
                        receiver_email None) =
     Some (epub_path_of cfg story, sanitize_title story ++ ".epub").
Proof.
  assert (Hsafe : Py.contains "/" (sanitize_title story ++ ".epub") = false).
  { apply no_slash_chars. rewrite list_ascii_app. apply Forall_app.
    split; [apply sanitize_title_chars|]. repeat constructor. }
  assert (Hdir : Py.startswith "/" (sanitize_title story) = false).
  { pose proof (sanitize_title_chars story) as H.
    destruct (sanitize_title story) as [|c rest]; [reflexivity|].
    cbn [list_ascii_of_string] in H. inversion H as [|? ? Hc _]; subst.
    cbn [Py.startswith]. rewrite andb_true_r.
    destruct (Ascii.eqb_spec "/"%char c); [|reflexivity].
    subst. discriminate. }
  assert (Hfile : Py.startswith "/" (sanitize_title story ++ ".epub") = false).
  { destruct (sanitize_title story) as [|c rest]; [reflexivity|exact Hdir]. }
  assert (Hbase : Py.basename (epub_path_of cfg story) =
                  sanitize_title story ++ ".epub").
  { unfold epub_path_of. apply basename_path_join. exact Hsafe. }
  split; [|split; [exact Hbase|]].
  - unfold epub_path_of.
    destruct (path_join_relative
                (Py.path_join (cwd cfg) (sanitize_title story))
                (sanitize_title story ++ ".epub") Hfile) as [-> | ->];
      destruct (path_join_relative (cwd cfg) (sanitize_title story) Hdir)
        as [-> | ->];
      rewrite !string_app_assoc; apply startswith_app.
  - unfold compose_message. cbn [msg_attachment].
    destruct (epub_path_of cfg story) as [|c rest] eqn:E.
    + exfalso. cbn [Py.basename] in Hbase.
      destruct (sanitize_title story); discriminate.
    + rewrite <- Hbase. reflexivity.
Qed.

(** ** The selection of [get_chapters] *)

Lemma startswith_iff p s :
  Py.startswith p s = true <-> exists rest, s = p ++ rest.
Proof.
  revert s. induction p as [|a p IH]; intro s.
  - simpl. split; [exists s; reflexivity|reflexivity].
  - destruct s as [|b s]; cbn [Py.startswith].
    + split; [discriminate|]. intros [rest H]. discriminate.
    + rewrite andb_true_iff, IH. split.
      * intros [Hab [rest ->]]. apply Ascii.eqb_eq in Hab. subst.
        exists rest. reflexivity.
      * intros [rest H]. cbn [append] in H. inversion H; subst.
        split; [apply Ascii.eqb_refl|exists rest; reflexivity].
Qed.

(** [Py.contains] is the substring test. *)
Lemma contains_iff p s :
  Py.contains p s = true <-> exists before after, s = before ++ p ++ after.
Proof.
  induction s as [|c s IH].
  - cbn [Py.contains]. rewrite orb_false_r, startswith_iff. split.
    + intros [rest H]. exists "", rest. exact H.
    + intros [before [after H]]. destruct before; [|discriminate].
      exists after. exact H.
  - cbn [Py.contains]. rewrite orb_true_iff, startswith_iff, IH. split.
    + intros [[rest H]|[before [after H]]].
      * exists "", rest. exact H.
      * exists (String c before), after. rewrite H. reflexivity.
    + intros [before [after H]]. destruct before as [|b before].
      * left. exists after. exact H.
      * right. cbn [append] in H. inversion H; subst.
        exists before, after. reflexivity.
Qed.

Lemma contains_trans a b c :
  Py.contains a b = true -> Py.contains b c = true ->
  Py.contains a c = true.
Proof.
  rewrite !contains_iff. intros [x [y ->]] [u [v ->]].
  exists (u ++ x), (y ++ v). rewrite !string_app_assoc. reflexivity.
Qed.

Lemma contains_empty s : Py.contains "" s = true.
Proof. apply contains_iff. exists "", s. reflexivity. Qed.

Lemma lower_char_idempotent c : lower_char (lower_char c) = lower_char c.
Proof. destruct c as [[] [] [] [] [] [] [] []]; reflexivity. Qed.

Lemma lower_idempotent s : lower (lower s) = lower s.
Proof.
  induction s as [|c s IH]; simpl; [reflexivity|].
  rewrite lower_char_idempotent, IH. reflexivity.
Qed.

Lemma lower_app a b : lower (a ++ b) = lower a ++ lower b.
Proof. induction a as [|c a IH]; simpl; congruence. Qed.

(** X4: [get_chapters] matches without regard to case: two story names
    with the same lower-case form select the same submissions, and so does
    the lower-case form of a name; and a submission is matched or not
    whatever the case of its title and of the name of its subreddit. *)
Theorem select_chapters_ignores_case (story : string)
  (submissions : list reddit_post) :
  (forall story', lower story = lower story' ->
                  select_chapters story submissions =
                  select_chapters story' submissions)
  /\ select_chapters (lower story) submissions =
     select_chapters story submissions
  /\ (forall p,
         chapter_matches story
           {| display_name := lower (display_name p);
              post := {| post_id := post_id (post p);
                         title := lower (title (post p));
                         created_utc := created_utc (post p);
                         selftext_html := selftext_html (post p) |} |} =
         chapter_matches story p).
Proof.
  assert (Hsame : forall story', lower story = lower story' ->
                                 select_chapters story submissions =
                                 select_chapters story' submissions).
  { intros story' H. unfold select_chapters, chapter_matches.
    rewrite H. reflexivity. }
  split; [exact Hsame|split].
  - symmetry. apply Hsame. symmetry. apply lower_idempotent.
  - intro p. unfold chapter_matches. cbn [display_name post title].
    rewrite !lower_idempotent. reflexivity.
Qed.

(** X5: what [get_chapters] selects, in full: a submission is returned
    exactly when the listing holds it in a subreddit whose name is [hfy]
    up to case and its lower-case title is some text, the lower-case story
    name, and some text; the order is the one of the listing, nothing is
    added; and an empty story name selects every submission of the
    subreddit. *)
Theorem select_chapters_spec (story : string)
  (submissions : list reddit_post) :
  (forall s, In s (select_chapters story submissions) <->
             exists p before after,
               In p submissions /\ post p = s
               /\ lower (display_name p) = "hfy"
               /\ lower (title s) = before ++ lower story ++ after)
  /\ (exists keep,
         select_chapters story submissions =
         map post (filter keep submissions))
  /\ select_chapters "" submissions =
     map post (filter (fun p => String.eqb (lower (display_name p)) "hfy")
                      submissions).
Proof.
  split; [|split].
  - intro s. unfold select_chapters. rewrite in_map_iff. split.
    + intros [p [Hpost Hin]]. apply filter_In in Hin.
      destruct Hin as [Hin Hm]. unfold chapter_matches in Hm.
      apply andb_true_iff in Hm. destruct Hm as [Hforum Htitle].
      apply String.eqb_eq in Hforum. apply contains_iff in Htitle.
      destruct Htitle as [before [after Ht]].
      exists p, before, after. subst s. auto.
    + intros [p [before [after [Hin [Hpost [Hforum Ht]]]]]].
      exists p. split; [exact Hpost|]. apply filter_In.
      split; [exact Hin|]. unfold chapter_matches.
      apply andb_true_iff. split.
      * apply String.eqb_eq. exact Hforum.
      * apply contains_iff. exists before, after. subst s. exact Ht.
  - exists (chapter_matches story). reflexivity.
  - unfold select_chapters. f_equal. apply filter_ext. intro p.
    unfold chapter_matches. cbn [lower]. rewrite contains_empty.
    apply andb_true_r.
Qed.

(** X6: a longer story name selects fewer submissions: when the name
    [part] occurs in the name [whole], the selection for [whole] is the
    selection for [part] cut down to the titles that hold [whole]. *)
Theorem select_chapters_narrows (part whole : string)
  (submissions : list reddit_post) :
  Py.contains (lower part) (lower whole) = true ->
  select_chapters whole submissions =
  filter (fun s => Py.contains (lower whole) (lower (title s)))
         (select_chapters part submissions).
Proof.
  intro Hpart.
  assert (Hboth : forall p,
             chapter_matches whole p =
             chapter_matches part p
             && Py.contains (lower whole) (lower (title (post p)))).
  { intro p. unfold chapter_matches.
    destruct (String.eqb (lower (display_name p)) (lower subreddit_name));
      cbn [andb]; [|reflexivity].
    destruct (Py.contains (lower whole) (lower (title (post p)))) eqn:Ew.
    - rewrite (contains_trans _ _ _ Hpart Ew). reflexivity.
    - rewrite andb_false_r. reflexivity. }
  unfold select_chapters.
  induction submissions as [|p rest IH]; [reflexivity|].
  cbn [filter]. rewrite Hboth.
  destruct (chapter_matches part p); cbn [andb map filter].
  - destruct (Py.contains (lower whole) (lower (title (post p))));
      cbn [map]; rewrite IH; reflexivity.
  - exact IH.
Qed.

(** X6 on a sample: the name of the story and a word of it. *)
Lemma select_chapters_narrows_witness :
  Py.contains (lower "Suns") (lower "Beneath Two Suns") = true
  /\ select_chapters "Beneath Two Suns"
       [ {| display_name := "HFY"; post := chapter_1_first |};
         {| display_name := "pics"; post := chapter_2 |} ] =
     filter (fun s => Py.contains (lower "Beneath Two Suns")
                                  (lower (title s)))
            (select_chapters "Suns"
               [ {| display_name := "HFY"; post := chapter_1_first |};
                 {| display_name := "pics"; post := chapter_2 |} ]).
Proof.
  split; [reflexivity|].
  apply (select_chapters_narrows "Suns" "Beneath Two Suns"). reflexivity.
Defined.

(** ** The configured story names *)

Lemma split_not_nil sep s : split sep s <> [].
Proof.
  destruct s as [|c s]; simpl; [discriminate|].
  destruct (Ascii.eqb c sep); [discriminate|].
  destruct (split sep s); discriminate.
Qed.

Lemma join_split sep s : Py.join (String sep "") (split sep s) = s.
Proof.
  induction s as [|c s IH]; [reflexivity|].
  cbn [split]. pose proof (split_not_nil sep s) as Hne.
  destruct (Ascii.eqb_spec c sep) as [->|Hc].
  - destruct (split sep s) as [|piece pieces]; [contradiction|].
    change (Py.join (String sep "") ("" :: piece :: pieces))
      with (String sep (Py.join (String sep "") (piece :: pieces))).
    rewrite IH. reflexivity.
  - destruct (split sep s) as [|piece pieces]; [contradiction|].
    destruct pieces as [|piece' pieces].
    + cbn [Py.join] in *. rewrite IH. reflexivity.
    + change (Py.join (String sep "") (String c piece :: piece' :: pieces))
        with (String c (Py.join (String sep "") (piece :: piece' :: pieces))).
      rewrite IH. reflexivity.
Qed.

Lemma length_split sep s :
  List.length (split sep s) =
  S (count_occ Ascii.ascii_dec (list_ascii_of_string s) sep).
Proof.
  induction s as [|c s IH]; [reflexivity|].
  cbn [split list_ascii_of_string count_occ].
  pose proof (split_not_nil sep s) as Hne.
  destruct (Ascii.eqb_spec c sep) as [->|Hc].
  - destruct (Ascii.ascii_dec sep sep); [|contradiction].
    cbn [List.length]. rewrite IH. reflexivity.
  - destruct (Ascii.ascii_dec c sep); [contradiction|].
    destruct (split sep s) as [|piece pieces]; [contradiction|].
    exact IH.
Qed.

Lemma split_no_sep sep s :
  Forall (fun piece => ~ In sep (list_ascii_of_string piece)) (split sep s).
Proof.
  induction s as [|c s IH]; [repeat constructor; simpl; tauto|].
  cbn [split]. destruct (Ascii.eqb_spec c sep) as [->|Hc].
  - constructor; [simpl; tauto|exact IH].
  - destruct (split sep s) as [|piece pieces]; [repeat constructor|].
    + simpl. intros [H|[]]. contradiction.
    + inversion IH as [|? ? Hp Hps]; subst. constructor; [|exact Hps].
      simpl. intros [H|H]; [contradiction|auto].
Qed.

Lemma lstrip_chars s c :
  In c (list_ascii_of_string (Py.lstrip s)) -> In c (list_ascii_of_string s).
Proof.
  induction s as [|a s IH]; simpl; [tauto|].
  destruct (Py.isspace a); simpl; auto.
Qed.

Lemma rstrip_chars s c :
  In c (list_ascii_of_string (Py.rstrip s)) -> In c (list_ascii_of_string s).
Proof.
  induction s as [|a s IH]; simpl; [tauto|].
  destruct (Py.rstrip s) as [|b r].
  - destruct (Py.isspace a); simpl; tauto.
  - simpl in *. intros [H|H]; auto.
Qed.

Lemma rstrip_idempotent s : Py.rstrip (Py.rstrip s) = Py.rstrip s.
Proof.
  induction s as [|a s IH]; [reflexivity|].
  cbn [Py.rstrip]. destruct (Py.rstrip s) as [|b r] eqn:E.
  - destruct (Py.isspace a) eqn:Ea; [reflexivity|].
    cbn [Py.rstrip]. rewrite Ea. reflexivity.
  - cbn [Py.rstrip] in *. rewrite IH. reflexivity.
Qed.

Lemma lstrip_rstrip_lstrip s :
  Py.lstrip (Py.rstrip (Py.lstrip s)) = Py.rstrip (Py.lstrip s).
Proof.
  assert (Hhead : forall t, Py.lstrip t = "" \/
                            exists a r, Py.lstrip t = String a r
                                        /\ Py.isspace a = false).
  { induction t as [|a t IH]; [left; reflexivity|].
    cbn [Py.lstrip]. destruct (Py.isspace a) eqn:Ea; [exact IH|].
    right. exists a, t. auto. }
  destruct (Hhead s) as [->|[a [r [-> Ha]]]]; [reflexivity|].
  cbn [Py.rstrip]. destruct (Py.rstrip r); rewrite ?Ha;
    cbn [Py.lstrip]; rewrite Ha; reflexivity.
Qed.

Lemma strip_idempotent s : Py.strip (Py.strip s) = Py.strip s.
Proof.
  unfold Py.strip. rewrite lstrip_rstrip_lstrip. apply rstrip_idempotent.
Qed.

(** X7: the stories configured for an author are one more than the commas
    of the configured value, so never none (an empty value gives the one
    empty story name); no story name holds a comma and none starts or ends
    with white space (stripping it again changes nothing); and the pieces
    before stripping, joined by commas, are the configured value. *)
Theorem story_list_spec (stories : string) :
  List.length (story_list stories) =
  S (count_occ Ascii.ascii_dec (list_ascii_of_string stories) ","%char)
  /\ Forall (fun story =>
               Py.strip story = story
               /\ ~ In ","%char (list_ascii_of_string story))
            (story_list stories)
  /\ Py.join "," (split "," stories) = stories
  /\ story_list "" = [""].
Proof.
  unfold story_list. split; [|split; [|split]].
  - rewrite length_map. apply length_split.
  - apply Forall_forall. intros story Hin. apply in_map_iff in Hin.
    destruct Hin as [piece [<- Hin]]. split; [apply strip_idempotent|].
    intro Hc. unfold Py.strip in Hc.
    apply rstrip_chars, lstrip_chars in Hc.
    pose proof (split_no_sep "," stories) as Hno.
    rewrite Forall_forall in Hno. exact (Hno piece Hin Hc).
  - apply join_split.
  - reflexivity.
Qed.

(** ** More on the retention of the delivery log *)

Lemma total_size_app l1 l2 :
  Ledger.total_size (l1 ++ l2) =
  (Ledger.total_size l1 + Ledger.total_size l2)%N.
Proof.
  induction l1 as [|f l1 IH]; simpl; [reflexivity|]. rewrite IH. lia.
Qed.

Lemma total_size_perm l l' :
  Permutation l l' -> Ledger.total_size l = Ledger.total_size l'.
Proof.
  induction 1; simpl; try lia.
Qed.

Lemma clean_loop_under max_size_mb log_files :
  Ledger.over_cap max_size_mb log_files = false ->
  Ledger.clean_loop max_size_mb log_files = Some ([], log_files).
Proof.
  intro H. destruct log_files; simpl; rewrite H; reflexivity.
Qed.

Lemma sorted_of_sorted {A : Type} (key : A -> Z) l :
  Sorted (key_le key) l -> sorted key l = l.
Proof.
  intro H. symmetry. apply stable_sort_unique; [exact H|reflexivity].
Qed.

Lemma glob_log_of_logs l :
  Forall (fun f => Ledger.endswith ".log" (Ledger.name f) = true) l ->
  Ledger.glob_log l = l.
Proof.
  induction 1 as [|f l Hf _ IH]; [reflexivity|].
  unfold Ledger.glob_log in *. cbn [filter]. rewrite Hf, IH. reflexivity.
Qed.

Lemma sorted_glob_logs log_dir :
  Forall (fun f => In f log_dir
                   /\ Ledger.endswith ".log" (Ledger.name f) = true)
         (sorted Ledger.ctime (Ledger.glob_log log_dir)).
Proof.
  apply Forall_forall. intros f Hf.
  apply (Permutation_in _ (sorted_perm Ledger.ctime _)) in Hf.
  unfold Ledger.glob_log in Hf. apply filter_In in Hf. exact Hf.
Qed.

(** X8: while the log files total less than [2 ^ 53] bytes, the range
    in which the float of the total is exact, and at most the cap,
    [clean_old_logs] removes nothing, whatever their number and age. *)
Theorem clean_old_logs_under_cap (log_dir : list Ledger.file)
  (max_size_mb : N) :
  (Ledger.total_size (Ledger.glob_log log_dir) < 2 ^ 53)%N ->
  (Ledger.total_size (Ledger.glob_log log_dir)
   <= max_size_mb * (1024 * 1024))%N ->
  Ledger.clean_old_logs log_dir max_size_mb =
  Some ([], sorted Ledger.ctime (Ledger.glob_log log_dir)).
Proof.
  intros Hexact H. unfold Ledger.clean_old_logs. apply clean_loop_under.
  rewrite <- (total_size_perm _ _ (sorted_perm Ledger.ctime _)) in Hexact, H.
  rewrite over_cap_small by exact Hexact.
  apply N.ltb_ge. exact H.
Qed.

(** X8 on a sample: two log files of 10 MB under the cap of 25. *)
Lemma clean_old_logs_under_cap_witness :
  Ledger.clean_old_logs
    [ {| Ledger.name := "2024-01-02_email_sent.log"; Ledger.ctime := 200;
         Ledger.size := 10485760 |};
      {| Ledger.name := "2024-01-01_email_sent.log"; Ledger.ctime := 100;
         Ledger.size := 10485760 |} ] 25 =
  Some ([],
        [ {| Ledger.name := "2024-01-01_email_sent.log"; Ledger.ctime := 100;
             Ledger.size := 10485760 |};
          {| Ledger.name := "2024-01-02_email_sent.log"; Ledger.ctime := 200;
             Ledger.size := 10485760 |} ]).
Proof.
  apply (clean_old_logs_under_cap
           [ {| Ledger.name := "2024-01-02_email_sent.log";
                Ledger.ctime := 200; Ledger.size := 10485760 |};
             {| Ledger.name := "2024-01-01_email_sent.log";
                Ledger.ctime := 100; Ledger.size := 10485760 |} ] 25).
  - reflexivity.
  - vm_compute. discriminate.
Defined.

(** X9: with log files that total less than [2 ^ 53] bytes,
    [clean_old_logs] empties the log directory of its log files exactly
    when there is none or the newest one alone is larger than the cap; in
    that case the file just written goes too. *)
Theorem clean_old_logs_removes_all_iff (log_dir : list Ledger.file)
  (max_size_mb : N) :
  (Ledger.total_size (Ledger.glob_log log_dir) < 2 ^ 53)%N ->
  exists removed kept,
    Ledger.clean_old_logs log_dir max_size_mb = Some (removed, kept)
    /\ (kept = [] <->
        Ledger.glob_log log_dir = []
        \/ exists older newest,
            sorted Ledger.ctime (Ledger.glob_log log_dir) =
            (older ++ [newest])%list
            /\ (max_size_mb * (1024 * 1024) < Ledger.size newest)%N).
Proof.
  intro Hexact. unfold Ledger.clean_old_logs.
  rewrite <- (total_size_perm _ _ (sorted_perm Ledger.ctime _)) in Hexact.
  destruct (clean_loop_spec max_size_mb
              (sorted Ledger.ctime (Ledger.glob_log log_dir)))
    as [removed [kept [Hrun [Hsplit [Hunder Hneeded]]]]].
  exists removed, kept. split; [exact Hrun|].
  rewrite Hsplit, total_size_app in Hexact.
  rewrite over_cap_small in Hunder by lia. apply N.ltb_ge in Hunder.
  split.
  - intros ->. rewrite app_nil_r in Hsplit.
    destruct removed as [|r0 rs].
    + left. pose proof (sorted_perm Ledger.ctime (Ledger.glob_log log_dir))
        as Hp.
      rewrite Hsplit in Hp. apply Permutation_nil in Hp. exact Hp.
    + right.
      destruct (exists_last (l := r0 :: rs)) as [older [newest Hlast]];
        [discriminate|].
      exists older, newest. split; [congruence|].
      specialize (Hneeded older newest [] Hlast).
      rewrite Hlast, total_size_app in Hexact. simpl in Hexact.
      rewrite over_cap_small in Hneeded by (simpl; lia).
      apply N.ltb_lt in Hneeded. simpl in Hneeded. lia.
  - intros [Hnone|[older [newest [Hsorted Hbig]]]].
    + rewrite Hnone in Hsplit. simpl in Hsplit.
      destruct removed; [|discriminate]. simpl in Hsplit. congruence.
    + destruct kept as [|k kept]; [reflexivity|]. exfalso.
      destruct (exists_last (l := k :: kept)) as [front [final Hlast]];
        [discriminate|].
      rewrite Hlast in Hsplit, Hunder. rewrite Hsorted in Hsplit.
      rewrite app_assoc in Hsplit. apply app_inj_tail in Hsplit.
      destruct Hsplit as [_ ->].
      rewrite total_size_app in Hunder. simpl in Hunder. lia.
Qed.

(** X9 on a sample: one log file of 30 MB under the cap of 25 goes. *)
Lemma clean_old_logs_removes_all_iff_witness :
  exists removed,
    Ledger.clean_old_logs
      [ {| Ledger.name := "2024-01-01_email_sent.log"; Ledger.ctime := 100;
           Ledger.size := 31457280 |} ] 25 = Some (removed, []).
Proof.
  destruct (clean_old_logs_removes_all_iff
              [ {| Ledger.name := "2024-01-01_email_sent.log";
                   Ledger.ctime := 100; Ledger.size := 31457280 |} ] 25
              eq_refl) as [removed [kept [Hrun [_ Hall]]]].
  exists removed. rewrite Hrun. f_equal. f_equal. apply Hall.
  right. exists [], {| Ledger.name := "2024-01-01_email_sent.log";
                       Ledger.ctime := 100; Ledger.size := 31457280 |}.
  split; reflexivity.
Defined.

Lemma Sorted_app_r {A : Type} (R : A -> A -> Prop) l1 l2 :
  Sorted R (l1 ++ l2) -> Sorted R l2.
Proof.
  induction l1 as [|x l1 IH]; simpl; [auto|].
  intro H. inversion H; auto.
Qed.

(** X10: [clean_old_logs] touches log files only (every file it removes
    or keeps is an entry of the directory whose name ends in [.log]), and
    a second pass over the files it kept removes nothing and keeps them
    in the same order. *)
Theorem clean_old_logs_idempotent (log_dir : list Ledger.file)
  (max_size_mb : N) :
  exists removed kept,
    Ledger.clean_old_logs log_dir max_size_mb = Some (removed, kept)
    /\ Forall (fun f => In f log_dir
                        /\ Ledger.endswith ".log" (Ledger.name f) = true)
              (removed ++ kept)
    /\ Ledger.clean_old_logs kept max_size_mb = Some ([], kept).
Proof.
  pose proof (sorted_glob_logs log_dir) as Hlogs.
  pose proof (sorted_Sorted Ledger.ctime (Ledger.glob_log log_dir)) as Hsorted.
  unfold Ledger.clean_old_logs.
  destruct (clean_loop_spec max_size_mb
              (sorted Ledger.ctime (Ledger.glob_log log_dir)))
    as [removed [kept [Hrun [Hsplit [Hunder _]]]]].
  exists removed, kept. rewrite Hsplit in Hlogs, Hsorted.
  split; [exact Hrun|]. split; [exact Hlogs|].
  apply Forall_app in Hlogs. destruct Hlogs as [_ Hkept].
  rewrite glob_log_of_logs.
  - rewrite sorted_of_sorted; [apply clean_loop_under; exact Hunder|].
    eapply Sorted_app_r. exact Hsorted.
  - eapply Forall_impl; [|exact Hkept]. intros f [_ H]. exact H.
Qed.

(** X11: a larger cap removes no more: the files removed under the larger
    cap are the first of those removed under the smaller one, and the
    others are kept in front of what the smaller cap keeps. *)
Theorem clean_old_logs_monotone (log_dir : list Ledger.file)
  (small large : N) :
  (small <= large)%N ->
  exists removed extra kept,
    Ledger.clean_old_logs log_dir large = Some (removed, (extra ++ kept)%list)
    /\ Ledger.clean_old_logs log_dir small =
       Some ((removed ++ extra)%list, kept).
Proof.
  intro Hle. unfold Ledger.clean_old_logs.
  destruct (clean_loop_spec small
              (sorted Ledger.ctime (Ledger.glob_log log_dir)))
    as [r1 [k1 [Hrun1 [Hsplit1 [Hunder1 _]]]]].
  destruct (clean_loop_spec large
              (sorted Ledger.ctime (Ledger.glob_log log_dir)))
    as [r2 [k2 [Hrun2 [Hsplit2 [_ Hneeded2]]]]].
  rewrite Hrun1, Hrun2.
  assert (Heq : (r1 ++ k1 = r2 ++ k2)%list) by congruence.
  apply app_eq_app in Heq.
  destruct Heq as [l [[Hr Hk]|[Hr Hk]]].
  - exists r2, l, k1. subst. split; reflexivity.
  - destruct l as [|f after].
    + rewrite app_nil_r in Hr. simpl in Hk. subst.
      exists r1, [], k2. rewrite app_nil_r. split; reflexivity.
    + exfalso. specialize (Hneeded2 r1 f after Hr).
      simpl in Hk. rewrite <- Hk in Hneeded2.
      unfold Ledger.over_cap in *.
      apply N.ltb_lt in Hneeded2. apply N.ltb_ge in Hunder1. nia.
Qed.

(** X11 on a sample: three log files of 10 MB under the caps 15 and 25. *)
Lemma clean_old_logs_monotone_witness :
  exists removed extra kept,
    Ledger.clean_old_logs
      [ {| Ledger.name := "a.log"; Ledger.ctime := 1;
           Ledger.size := 10485760 |};
        {| Ledger.name := "b.log"; Ledger.ctime := 2;
           Ledger.size := 10485760 |};
        {| Ledger.name := "c.log"; Ledger.ctime := 3;
           Ledger.size := 10485760 |} ] 25 =
    Some (removed, (extra ++ kept)%list)
    /\ Ledger.clean_old_logs
         [ {| Ledger.name := "a.log"; Ledger.ctime := 1;
              Ledger.size := 10485760 |};
           {| Ledger.name := "b.log"; Ledger.ctime := 2;
              Ledger.size := 10485760 |};
           {| Ledger.name := "c.log"; Ledger.ctime := 3;
              Ledger.size := 10485760 |} ] 15 =
       Some ((removed ++ extra)%list, kept).
Proof.
  apply clean_old_logs_monotone. vm_compute. discriminate.
Defined.

(** ** Rules for [runs] *)

Lemma runs_ret {A : Type} (P : event -> Prop) (Q : A -> Prop) a :
  Q a -> runs P Q (ret a).
Proof.
  intros Hq w. exists []. simpl. rewrite app_nil_r.
  repeat split; auto; [discriminate|]. intros b H. inversion H; subst. exact Hq.
Qed.

Lemma runs_weaken {A : Type} (P : event -> Prop) (Q R : A -> Prop) f :
  runs P Q f -> (forall a, Q a -> R a) -> runs P R f.
Proof.
  intros Hf Hqr w. destruct (Hf w) as [new [Ht [Hp [Hfuel Hq]]]].
  exists new. repeat split; auto.
Qed.

Lemma runs_bind {A B : Type} (P : event -> Prop) (Q : A -> Prop)
  (R : B -> Prop) (f : M A) (k : A -> M B) :
  runs P Q f -> (forall a, Q a -> runs P R (k a)) -> runs P R (bind f k).
Proof.
  intros Hf Hk w. unfold bind.
  destruct (Hf w) as [new [Ht [Hp [Hfuel Hq]]]].
  destruct (f w) as [[a|e|] w1]; cbn [fst snd] in *.
  - destruct (Hk a (Hq a eq_refl) w1) as [new' [Ht' [Hp' [Hfuel' Hr]]]].
    exists (new ++ new')%list. rewrite Ht', Ht, app_assoc.
    repeat split; auto. apply Forall_app; auto.
  - exists new. repeat split; auto; discriminate.
  - contradiction.
Qed.

Lemma runs_try_except {A : Type} (P : event -> Prop) (Q : A -> Prop)
  (body : M A) (handler : exn -> M A) :
  runs P Q body -> (forall e, runs P Q (handler e)) ->
  runs P Q (try_except body handler).
Proof.
  intros Hb Hh w. unfold try_except.
  destruct (Hb w) as [new [Ht [Hp [Hfuel Hq]]]].
  destruct (body w) as [[a|e|] w1]; cbn [fst snd] in *.
  - exists new. repeat split; auto.
  - destruct (Hh e w1) as [new' [Ht' [Hp' [Hfuel' Hr]]]].
    exists (new ++ new')%list. rewrite Ht', Ht, app_assoc.
    repeat split; auto. apply Forall_app; auto.
  - contradiction.
Qed.

Lemma runs_emit (P : event -> Prop) ev :
  P ev -> runs P (fun _ => True) (emit ev).
Proof.
  intros H w. exists [ev]. simpl. repeat split; auto. discriminate.
Qed.

Lemma runs_ext oracle (P : event -> Prop) ev :
  P ev -> runs P (fun _ => True) (ext oracle ev).
Proof.
  intros H w. exists [ev]. unfold ext.
  destruct (oracle (calls w)) as [[c t]|]; simpl; repeat split; auto;
    discriminate.
Qed.

Lemma runs_silent {A : Type} (P : event -> Prop) (f : M A) :
  (forall w, exists a w', f w = (Ok a, w') /\ trace w' = trace w) ->
  runs P (fun _ => True) f.
Proof.
  intros H w. destruct (H w) as [a [w' [E Ht]]]. exists [].
  rewrite E. cbn [fst snd]. rewrite Ht, app_nil_r.
  repeat split; auto. discriminate.
Qed.

Lemma runs_for_each {A : Type} (P : event -> Prop) (f : A -> M unit) l :
  (forall x, In x l -> runs P (fun _ => True) (f x)) ->
  runs P (fun _ => True) (for_each f l).
Proof.
  induction l as [|x l IH]; intro H; cbn [for_each].
  - apply runs_ret. exact I.
  - apply runs_bind with (Q := fun _ => True).
    + apply H. left. reflexivity.
    + intros _ _. apply IH. intros y Hy. apply H. right. exact Hy.
Qed.

(** Under the decorator the waits are those before the second and the
    third attempt, and three turns of fuel are enough. *)
Lemma runs_retry_loop {A : Type} (P : event -> Prop) (Q : A -> Prop)
  (f : M A) :
  runs P Q f -> P (Sleep 4) ->
  forall fuel attempt_number,
    (1 <= attempt_number)%nat -> (3 <= fuel + attempt_number)%nat ->
    runs P Q (retry_loop (stop_after_attempt 3) (wait_exponential 1 4 60)
                         fuel attempt_number f).
Proof.
  intros Hf Hs. induction fuel as [|fuel IH];
    intros attempt_number Hone Hfuel w; cbn [retry_loop];
    destruct (Hf w) as [new [Ht [Hp [Hnf Hq]]]];
    destruct (f w) as [[a|e|] w1]; cbn [fst snd] in *;
    try contradiction;
    try (exists new; repeat split; auto; fail).
  - assert (Hstop : stop_after_attempt 3 attempt_number = true)
      by (apply Nat.leb_le; lia).
    rewrite Hstop. exists new. cbn [fst snd].
    repeat split; auto; discriminate.
  - destruct (stop_after_attempt 3 attempt_number) eqn:Hstop.
    + exists new. cbn [fst snd]. repeat split; auto; discriminate.
    + apply Nat.leb_gt in Hstop.
      assert (Hwait : wait_exponential 1 4 60 attempt_number = 4%Z).
      { destruct attempt_number as [|[|[|n]]]; try lia; reflexivity. }
      unfold bind at 1, emit at 1. rewrite Hwait.
      destruct (IH (S attempt_number) ltac:(lia) ltac:(lia)
                   {| trace := trace w1 ++ [Sleep 4];
                      calls := calls w1; summary := summary w1;
                      failed_files := failed_files w1 |})
        as [new' [Ht' [Hp' [Hnf' Hq']]]].
      exists (new ++ Sleep 4 :: new')%list.
      rewrite Ht'. cbn [trace]. rewrite Ht, <- !app_assoc.
      repeat split; auto. apply Forall_app. auto.
Qed.

Lemma runs_retry {A : Type} (P : event -> Prop) (Q : A -> Prop) (f : M A) :
  runs P Q f -> P (Sleep 4) -> runs P Q (retry f).
Proof.
  intros Hf Hs. unfold retry. apply runs_retry_loop; auto; lia.
Qed.

Lemma runs_send_email oracle cfg (P : event -> Prop) fp st rcv em :
  P (Smtp (compose_message cfg fp st rcv em)) -> P (Sleep 4) ->
  runs P (fun _ => True) (send_email oracle cfg fp st rcv em).
Proof.
  intros Hm Hs. unfold send_email. apply runs_retry; [|exact Hs].
  unfold send_email_body. apply runs_ext. exact Hm.
Qed.

(** ** The mails and the books of a run *)

Lemma epub_file_no_slash story :
  Py.contains "/" (sanitize_title story ++ ".epub") = false.
Proof.
  apply no_slash_chars. rewrite list_ascii_app. apply Forall_app.
  split; [apply sanitize_title_chars|]. repeat constructor.
Qed.

Lemma epub_path_basename cfg story :
  Py.basename (epub_path_of cfg story) = sanitize_title story ++ ".epub".
Proof.
  unfold epub_path_of. apply basename_path_join. apply epub_file_no_slash.
Qed.

Lemma epub_path_prefix cfg story :
  Py.startswith (cwd cfg) (epub_path_of cfg story) = true.
Proof.
  assert (Hdir : Py.startswith "/" (sanitize_title story) = false).
  { pose proof (sanitize_title_chars story) as H.
    destruct (sanitize_title story) as [|c rest]; [reflexivity|].
    cbn [list_ascii_of_string] in H. inversion H as [|? ? Hc _]; subst.
    cbn [Py.startswith]. rewrite andb_true_r.
    destruct (Ascii.eqb_spec "/"%char c); [|reflexivity].
    subst. discriminate. }
  assert (Hfile : Py.startswith "/" (sanitize_title story ++ ".epub") = false).
  { destruct (sanitize_title story) as [|c rest]; [reflexivity|exact Hdir]. }
  unfold epub_path_of.
  destruct (path_join_relative
              (Py.path_join (cwd cfg) (sanitize_title story))
              (sanitize_title story ++ ".epub") Hfile) as [-> | ->];
    destruct (path_join_relative (cwd cfg) (sanitize_title story) Hdir)
      as [-> | ->];
    rewrite !string_app_assoc; apply startswith_app.
Qed.

Lemma delivery_mail_attachment cfg story :
  msg_attachment (delivery_mail cfg story) =
  Some (epub_path_of cfg story, sanitize_title story ++ ".epub").
Proof.
  unfold delivery_mail, compose_message. cbn [msg_attachment].
  pose proof (epub_path_basename cfg story) as Hbase.
  destruct (epub_path_of cfg story) as [|c rest].
  - exfalso. cbn [Py.basename] in Hbase.
    destruct (sanitize_title story); discriminate.
  - rewrite <- Hbase. reflexivity.
Qed.

Lemma delivery_mail_event cfg story :
  run_event cfg (Smtp (delivery_mail cfg story)).
Proof.
  split; [reflexivity|]. left. exists story.
  repeat split. apply delivery_mail_attachment.
Qed.

Lemma notice_event cfg subject body :
  Py.falsy body = false ->
  run_event cfg (Smtp (compose_message cfg None subject (error_receiver cfg)
                                       (Some body))).
Proof.
  intro H. split; [reflexivity|]. right.
  unfold is_notice, compose_message.
  cbn [msg_to msg_attachment msg_subject msg_text]. rewrite H. cbn [negb].
  repeat split.
  exists body. split; [reflexivity|]. intros ->. discriminate.
Qed.

Lemma NoDup_map_filter {A B : Type} (f : A -> B) (p : A -> bool) l :
  NoDup (map f l) -> NoDup (map f (filter p l)).
Proof.
  induction l as [|x l IH]; simpl; intro H; [constructor|].
  inversion H as [|? ? Hnotin Hnd]; subst.
  destruct (p x); simpl; [|auto].
  constructor; [|auto]. intro Hin. apply Hnotin.
  apply in_map_iff in Hin. destruct Hin as [y [Hy Hin]].
  apply filter_In in Hin. apply in_map_iff. exists y. tauto.
Qed.

Lemma book_chapter_titles parse decode fetched :
  map chapter_title (book_chapters parse decode fetched) =
  map title (filter (is_valid parse) (sorted_submissions fetched)).
Proof.
  unfold book_chapters. rewrite map_map. reflexivity.
Qed.

Lemma sorted_submissions_titles fetched :
  NoDup (map title (sorted_submissions fetched)).
Proof.
  unfold sorted_submissions.
  apply Permutation_NoDup
    with (l := map title (dict_values (collect fetched))).
  - apply Permutation_map, Permutation_sym, sorted_perm.
  - rewrite collect_values_titles. apply collect_well_keyed.
Qed.

Lemma book_of_well_built parse decode cfg author story fetched :
  well_built cfg (epub_path_of cfg story)
             (book_of parse decode author story fetched).
Proof.
  unfold well_built, book_of.
  cbn [book_title language authors items toc spine].
  repeat split.
  rewrite book_chapter_titles. apply NoDup_map_filter.
  apply sorted_submissions_titles.
Qed.

Lemma chapter_loop_runs parse decode (P : event -> Prop) submissions :
  (forall msg, P (LogError msg)) ->
  let chapters :=
    map (fun s => make_chapter parse decode (title s) (html_of s))
        (filter (is_valid parse) submissions) in
  runs P (fun built => built = (chapters, chapters, Nav :: map Item chapters))
       (chapter_loop parse decode submissions [] [] [Nav]).
Proof.
  intros Hlog chapters w.
  assert (Hlogs : forall l, Forall P (map LogError (rejection_messages parse l))).
  { intro l. apply Forall_forall. intros ev Hev. apply in_map_iff in Hev.
    destruct Hev as [msg [<- _]]. apply Hlog. }
  destruct (first_without_body submissions)
    as [Hall|[before [s [after [Hsplit [Hbefore Hs]]]]]].
  - rewrite (chapter_loop_spec parse decode submissions Hall). cbv zeta.
    exists (map LogError (rejection_messages parse submissions)).
    cbn [fst snd trace advance app]. repeat split.
    + apply Hlogs.
    + discriminate.
    + intros a H. inversion H. reflexivity.
  - rewrite Hsplit.
    rewrite (chapter_loop_no_body parse decode before s after Hbefore Hs).
    exists (map LogError (rejection_messages parse before)).
    cbn [fst snd trace advance]. repeat split.
    + apply Hlogs.
    + discriminate.
    + intros a H. discriminate H.
Qed.

Lemma process_story_runs parse decode reddit oracle cfg author story :
  In (author, story) (story_pairs cfg) ->
  runs (run_event cfg) (fun _ => True)
       (process_story parse decode reddit oracle cfg author story).
Proof.
  intro Hpair. unfold process_story. cbv zeta.
  apply runs_bind with (Q := fun _ => True);
    [apply runs_ext; exact I|intros _ _].
  apply runs_bind with (Q := fun fetched => fetched = reddit author story).
  { unfold get_chapters.
    apply runs_bind with (Q := fun _ => True);
      [apply runs_ext; exact I|intros _ _].
    apply runs_ret. reflexivity. }
  intros fetched ->.
  eapply runs_bind;
    [apply chapter_loop_runs; intro; exact I|].
  intros built ->. cbv beta iota.
  apply runs_bind with (Q := fun _ => True).
  { apply runs_ext.
    exact (book_of_well_built parse decode cfg author story
                              (reddit author story)). }
  intros _ _. unfold deliver. apply runs_try_except.
  - apply runs_bind with (Q := fun _ => True);
      [apply runs_send_email;
       [apply delivery_mail_event|reflexivity]|intros _ _].
    apply runs_bind with (Q := fun _ => True);
      [apply runs_ext; exists author, story; split; [exact Hpair|reflexivity]
      |intros _ _].
    apply runs_bind with (Q := fun _ => True);
      [apply runs_silent; intro w; eexists; eexists;
       split; reflexivity|intros _ _].
    apply runs_ext. exact I.
  - intro e.
    apply runs_bind with (Q := fun _ => True);
      [apply runs_emit; exact I|intros _ _].
    apply runs_bind with (Q := fun _ => True);
      [apply runs_send_email;
       [apply notice_event; reflexivity|reflexivity]|intros _ _].
    apply runs_bind with (Q := fun _ => True);
      [apply runs_silent; intro w; eexists; eexists;
       split; reflexivity|intros _ _].
    apply runs_silent. intro w. eexists. eexists. split; reflexivity.
Qed.

Lemma download_stories_body_runs parse decode reddit oracle cfg :
  runs (run_event cfg) (fun _ => True)
       (download_stories_body parse decode reddit oracle cfg).
Proof.
  unfold download_stories_body.
  apply runs_bind with (Q := fun _ => True);
    [apply runs_silent; intro w; eexists; eexists;
     split; reflexivity|intros _ _].
  apply runs_bind with (Q := fun _ => True).
  { destruct (bot_enabled cfg); [|apply runs_ret; exact I].
    apply runs_for_each. intros entry Hentry.
    apply runs_for_each. intros story Hstory. apply process_story_runs.
    unfold story_pairs. apply in_flat_map. exists entry.
    split; [exact Hentry|]. apply in_map. exact Hstory. }
  intros _ _.
  apply runs_bind with (Q := fun _ => True);
    [apply runs_silent; intro w; eexists; eexists;
     split; reflexivity|intros lines _].
  apply runs_send_email; [apply notice_event; reflexivity|reflexivity].
Qed.

Lemma main_runs parse decode reddit oracle cfg :
  runs (run_event cfg) (fun _ => True) (main parse decode reddit oracle cfg).
Proof.
  unfold main.
  apply runs_bind with (Q := fun _ => True);
    [apply runs_send_email; [apply notice_event; reflexivity|reflexivity]
    |intros _ _].
  unfold job. apply runs_try_except.
  - unfold download_stories. apply runs_retry; [|reflexivity].
    apply download_stories_body_runs.
  - intro e.
    apply runs_bind with (Q := fun _ => True);
      [apply runs_emit; exact I|intros _ _].
    apply runs_send_email; [apply notice_event; reflexivity|reflexivity].
Qed.

(** X12: whatever the outside does, every mail session of a run, from the
    start notice to the last mail of [job], is sent in the name of the
    configured sender and is of one of two kinds: a book for the receiver
    (the file of a story attached under its sanitized name, the story as
    subject, no text), or a text for the error receiver, without a file
    and with a subject that starts with [Error: ].  So the start notice
    and the run summary, too, go out under an error subject, and no book
    ever goes to the error receiver. *)
Theorem run_mails_classified
  (parse : string -> list node) (decode : list node -> string)
  (reddit : string -> string -> list submission)
  (oracle : nat -> option (string * string)) (cfg : config) (w : world) :
  exists new,
    trace (snd (main parse decode reddit oracle cfg w)) =
    (trace w ++ new)%list
    /\ forall m, In (Smtp m) new ->
                 msg_from m = sender cfg
                 /\ (is_delivery cfg m \/ is_notice cfg m).
Proof.
  destruct (main_runs parse decode reddit oracle cfg w)
    as [new [Ht [Hp _]]].
  exists new. split; [exact Ht|]. intros m Hin.
  rewrite Forall_forall in Hp. exact (Hp _ Hin).
Qed.

(** X13: whatever the outside does, every book a run writes goes to the
    path of its story under the working directory, is in English, has one
    author, has its items equal to its table of contents, has ['nav']
    followed by the entries of the table of contents as its spine, and
    holds no chapter title twice. *)
Theorem run_books_well_built
  (parse : string -> list node) (decode : list node -> string)
  (reddit : string -> string -> list submission)
  (oracle : nat -> option (string * string)) (cfg : config) (w : world) :
  exists new,
    trace (snd (main parse decode reddit oracle cfg w)) =
    (trace w ++ new)%list
    /\ forall path book, In (WriteEpub path book) new ->
                         well_built cfg path book.
Proof.
  destruct (main_runs parse decode reddit oracle cfg w)
    as [new [Ht [Hp _]]].
  exists new. split; [exact Ht|]. intros path book Hin.
  rewrite Forall_forall in Hp. exact (Hp _ Hin).
Qed.



(** ** Computing a run step by step *)

Lemma grow_grow w e1 k1 l1 p1 e2 k2 l2 p2 :
  grow (grow w e1 k1 l1 p1) e2 k2 l2 p2 =
  grow w (e1 ++ e2) (k1 + k2) (l1 ++ l2) (p1 ++ p2).
Proof.
  unfold grow. cbn [trace calls summary failed_files].
  rewrite !app_assoc, Nat.add_assoc. reflexivity.
Qed.

Lemma advance_grow w events made : advance w events made = grow w events made [] [].
Proof. unfold advance, grow. rewrite !app_nil_r. reflexivity. Qed.

Lemma grow_nil w : grow w [] 0 [] [] = w.
Proof. rewrite <- advance_grow. apply advance_nil. Qed.

Lemma world_ext t c s f t' c' s' f' :
  t = t' -> c = c' -> s = s' -> f = f' ->
  Build_world t c s f = Build_world t' c' s' f'.
Proof. intros -> -> -> ->. reflexivity. Qed.

Lemma bind_raise {A B : Type} (f : M A) (k : A -> M B) w e w1 :
  f w = (Raise e, w1) -> bind f k w = (Raise e, w1).
Proof. intro H. unfold bind. rewrite H. reflexivity. Qed.

Lemma try_ok {A : Type} (body : M A) handler w a w1 :
  body w = (Ok a, w1) -> try_except body handler w = (Ok a, w1).
Proof. intro H. unfold try_except. rewrite H. reflexivity. Qed.

Lemma try_raise {A : Type} (body : M A) handler w e w1 :
  body w = (Raise e, w1) -> try_except body handler w = handler e w1.
Proof. intro H. unfold try_except. rewrite H. reflexivity. Qed.

Lemma ext_grow oracle ev w :
  oracle (calls w) = None -> ext oracle ev w = (Ok tt, grow w [ev] 1 [] []).
Proof. intro H. rewrite <- advance_grow. apply ext_ok. exact H. Qed.

Lemma ext_raise oracle ev w class text :
  oracle (calls w) = Some (class, text) ->
  ext oracle ev w = (Raise (Error class text), grow w [ev] 1 [] []).
Proof.
  intro H. unfold ext. rewrite H. f_equal. rewrite <- advance_grow.
  apply world_eq; [reflexivity|lia].
Qed.

Lemma emit_grow ev w : emit ev w = (Ok tt, grow w [ev] 0 [] []).
Proof.
  unfold emit. f_equal. rewrite <- advance_grow.
  apply world_eq; [reflexivity|lia].
Qed.

Lemma summary_append_grow line w :
  summary_append line w = (Ok tt, grow w [] 0 [line] []).
Proof.
  unfold summary_append, grow. rewrite !app_nil_r, Nat.add_0_r. reflexivity.
Qed.

Lemma failed_files_append_grow path w :
  failed_files_append path w = (Ok tt, grow w [] 0 [] [path]).
Proof.
  unfold failed_files_append, grow.
  rewrite !app_nil_r, Nat.add_0_r. reflexivity.
Qed.

Lemma send_email_ok oracle cfg fp st rcv em w :
  oracle (calls w) = None ->
  send_email oracle cfg fp st rcv em w =
  (Ok tt, grow w [Smtp (compose_message cfg fp st rcv em)] 1 [] []).
Proof.
  intro H. unfold send_email, send_email_body. rewrite retry_ext, H.
  rewrite advance_grow. reflexivity.
Qed.

Lemma send_email_fails oracle cfg fp st rcv em w class text :
  oracle (calls w) <> None ->
  oracle (calls w + 1)%nat <> None ->
  oracle (calls w + 2)%nat = Some (class, text) ->
  send_email oracle cfg fp st rcv em w =
  (Raise (RetryError (Error class text)),
   grow w [Smtp (compose_message cfg fp st rcv em); Sleep 4;
           Smtp (compose_message cfg fp st rcv em); Sleep 4;
           Smtp (compose_message cfg fp st rcv em)] 3 [] []).
Proof.
  intros H1 H2 H3. unfold send_email, send_email_body. rewrite retry_ext.
  replace (S (calls w)) with (calls w + 1)%nat by lia.
  replace (S (calls w + 1)) with (calls w + 2)%nat by lia.
  destruct (oracle (calls w)); [|contradiction].
  destruct (oracle (calls w + 1)%nat); [|contradiction].
  rewrite H3, advance_grow. reflexivity.
Qed.

Ltac oracle_at :=
  cbn [calls grow fresh];
  first
    [ eassumption
    | match goal with
      | H : ?o ?m = _ |- ?o ?n = _ =>
          replace n with m by lia; eexact H
      end
    | match goal with
      | H : ?o ?m <> None |- ?o ?n <> None =>
          replace n with m by lia; exact H
      end
    | match goal with
      | H : fine ?o _ _ |- ?o _ = None => apply H; lia
      end
    | match goal with
      | H : failing ?o _ _ |- ?o _ <> None => apply H; lia
      end ].

(** ** The end of the work on one story *)

Lemma deliver_sent oracle cfg author story epub_path w :
  oracle (calls w) = None ->
  oracle (calls w + 1)%nat = None ->
  oracle (calls w + 2)%nat = None ->
  deliver oracle cfg author story epub_path w =
  (Ok tt,
   grow w [Smtp (compose_message cfg (Some epub_path) story (receiver cfg)
                                 None);
           Remove epub_path; LogEmailSent story] 3
        [success_line author story] []).
Proof.
  intros H0 H1 H2. unfold deliver. apply try_ok.
  erewrite bind_ok; [|apply send_email_ok; oracle_at].
  erewrite bind_ok; [|apply ext_grow; oracle_at].
  erewrite bind_ok; [|apply summary_append_grow].
  unfold log_email_sent. rewrite ext_grow by oracle_at.
  rewrite !grow_grow. reflexivity.
Qed.

(** X16: when the three sessions that carry the book fail, [deliver]
    neither removes the file nor writes the delivery log, whatever happens
    next; and when the error notice then goes through, the story ends
    without an exception, with the failure line (which holds the text of
    the [RetryError]) added to the summary and the path of the file added
    to [failed_files]. *)
Theorem failed_delivery_keeps_file
  (oracle : nat -> option (string * string)) (cfg : config)
  (author story epub_path class text : string) (w : world) :
  oracle (calls w) <> None ->
  oracle (calls w + 1)%nat <> None ->
  oracle (calls w + 2)%nat = Some (class, text) ->
  let book_mail :=
    Smtp (compose_message cfg (Some epub_path) story (receiver cfg) None) in
  let line := failure_line story (RetryError (Error class text)) in
  (exists rest,
      trace (snd (deliver oracle cfg author story epub_path w)) =
      (trace w ++ [book_mail; Sleep 4; book_mail; Sleep 4; book_mail]
       ++ rest)%list
      /\ Forall keeps_file rest)
  /\ (oracle (calls w + 3)%nat = None ->
      deliver oracle cfg author story epub_path w =
      (Ok tt,
       grow w [book_mail; Sleep 4; book_mail; Sleep 4; book_mail;
               LogError line;
               Smtp (compose_message cfg None ("Error - " ++ story)
                                     (error_receiver cfg) (Some line))]
            4 [line] [epub_path])).
Proof.
  intros H0 H1 H2. cbv zeta.
  assert (Hsend : forall k : unit -> M unit,
             bind (send_email oracle cfg (Some epub_path) story
                              (receiver cfg) None) k w =
             (Raise (RetryError (Error class text)),
              grow w [Smtp (compose_message cfg (Some epub_path) story
                                            (receiver cfg) None); Sleep 4;
                      Smtp (compose_message cfg (Some epub_path) story
                                            (receiver cfg) None); Sleep 4;
                      Smtp (compose_message cfg (Some epub_path) story
                                            (receiver cfg) None)] 3 [] [])).
  { intro k. apply bind_raise. apply send_email_fails; assumption. }
  split.
  - unfold deliver. rewrite (try_raise _ _ _ _ _ (Hsend _)).
    match goal with
    | |- context [snd (?handler ?w1)] =>
        assert (Hh : runs keeps_file (fun _ => True) handler)
    end.
    { apply runs_bind with (Q := fun _ => True);
        [apply runs_emit; exact I|intros _ _].
      apply runs_bind with (Q := fun _ => True);
        [apply runs_send_email; exact I|intros _ _].
      apply runs_bind with (Q := fun _ => True);
        [apply runs_silent; intro w0; eexists; eexists;
         split; reflexivity|intros _ _].
      apply runs_silent. intro w0. eexists. eexists. split; reflexivity. }
    match goal with
    | |- context [snd (?handler ?w1)] =>
        destruct (Hh w1) as [rest [Ht [Hp _]]]
    end.
    exists rest. split; [|exact Hp].
    rewrite Ht. cbn [trace grow]. rewrite <- app_assoc. reflexivity.
  - intro H3. unfold deliver. rewrite (try_raise _ _ _ _ _ (Hsend _)).
    erewrite bind_ok; [|apply emit_grow].
    erewrite bind_ok; [|apply send_email_ok; oracle_at].
    erewrite bind_ok; [|apply summary_append_grow].
    rewrite failed_files_append_grow, !grow_grow. reflexivity.
Qed.

(** X16 on a sample: the delivery of the scenario with the transport down
    for three sessions. *)
Lemma failed_delivery_keeps_file_witness :
  deliver delivery_fails sample_config "Isha73" "Beneath Two Suns"
          (epub_path_of sample_config "Beneath Two Suns")
          (grow initial_world [] 3 [] []) =
  (Ok tt,
   grow (grow initial_world [] 3 [] [])
        [Smtp (delivery_mail sample_config "Beneath Two Suns"); Sleep 4;
         Smtp (delivery_mail sample_config "Beneath Two Suns"); Sleep 4;
         Smtp (delivery_mail sample_config "Beneath Two Suns");
         LogError (failure_line "Beneath Two Suns"
                     (RetryError (Error "SMTPException"
                                        "Connection refused")));
         Smtp (compose_message sample_config None
                 "Error - Beneath Two Suns" "admin@example.org"
                 (Some (failure_line "Beneath Two Suns"
                          (RetryError (Error "SMTPException"
                                             "Connection refused")))))]
        4
        [failure_line "Beneath Two Suns"
           (RetryError (Error "SMTPException" "Connection refused"))]
        [epub_path_of sample_config "Beneath Two Suns"]).
Proof.
  apply (proj2 (failed_delivery_keeps_file delivery_fails sample_config
                  "Isha73" "Beneath Two Suns"
                  (epub_path_of sample_config "Beneath Two Suns")
                  "SMTPException" "Connection refused"
                  (grow initial_world [] 3 [] [])
                  ltac:(discriminate) ltac:(discriminate) eq_refl)).
  reflexivity.
Defined.

(** X17: a book that was mailed can still be reported as failed.  When
    the session succeeds but the removal of the file raises, the story
    gets the failure line alone and its path goes on [failed_files].  When
    session and removal succeed but [log_email_sent] raises, the story has
    both its success line and a failure line in the summary, and the path
    of the file, which is gone, goes on [failed_files].  (In both cases
    the error notice is taken to go through.) *)
Theorem delivered_but_reported_failed
  (oracle : nat -> option (string * string)) (cfg : config)
  (author story epub_path class text : string) (w : world) :
  oracle (calls w) = None ->
  let book_mail :=
    Smtp (compose_message cfg (Some epub_path) story (receiver cfg) None) in
  let line := failure_line story (Error class text) in
  let notice :=
    Smtp (compose_message cfg None ("Error - " ++ story)
                          (error_receiver cfg) (Some line)) in
  (oracle (calls w + 1)%nat = Some (class, text) ->
   oracle (calls w + 2)%nat = None ->
   deliver oracle cfg author story epub_path w =
   (Ok tt,
    grow w [book_mail; Remove epub_path; LogError line; notice] 3
         [line] [epub_path]))
  /\ (oracle (calls w + 1)%nat = None ->
      oracle (calls w + 2)%nat = Some (class, text) ->
      oracle (calls w + 3)%nat = None ->
      deliver oracle cfg author story epub_path w =
      (Ok tt,
       grow w [book_mail; Remove epub_path; LogEmailSent story;
               LogError line; notice] 4
            [success_line author story; line] [epub_path])).
Proof.
  intro H0. cbv zeta. split.
  - intros H1 H2. unfold deliver.
    erewrite try_raise.
    2:{ erewrite bind_ok; [|apply send_email_ok; oracle_at].
        apply bind_raise. apply ext_raise. oracle_at. }
    erewrite bind_ok; [|apply emit_grow].
    erewrite bind_ok; [|apply send_email_ok; oracle_at].
    erewrite bind_ok; [|apply summary_append_grow].
    rewrite failed_files_append_grow, !grow_grow. reflexivity.
  - intros H1 H2 H3. unfold deliver.
    erewrite try_raise.
    2:{ erewrite bind_ok; [|apply send_email_ok; oracle_at].
        erewrite bind_ok; [|apply ext_grow; oracle_at].
        erewrite bind_ok; [|apply summary_append_grow].
        unfold log_email_sent. apply ext_raise. oracle_at. }
    erewrite bind_ok; [|apply emit_grow].
    erewrite bind_ok; [|apply send_email_ok; oracle_at].
    erewrite bind_ok; [|apply summary_append_grow].
    rewrite failed_files_append_grow, !grow_grow. reflexivity.
Qed.

(** X17 on a sample: the book is mailed, its removal is refused. *)
Lemma delivered_but_reported_failed_witness :
  removal_fails 0 = None
  /\ summary (snd (deliver removal_fails sample_config "Isha73"
                           "Beneath Two Suns"
                           (epub_path_of sample_config "Beneath Two Suns")
                           initial_world)) =
     [failure_line "Beneath Two Suns"
        (Error "PermissionError" "Permission denied")].
Proof.
  split; [reflexivity|].
  rewrite (proj1 (delivered_but_reported_failed removal_fails sample_config
                    "Isha73" "Beneath Two Suns"
                    (epub_path_of sample_config "Beneath Two Suns")
                    "PermissionError" "Permission denied" initial_world
                    eq_refl) eq_refl eq_refl).
  reflexivity.
Defined.

(** ** A pass over the configured stories *)

Lemma fine_sub oracle first count first' count' :
  fine oracle first count ->
  (first <= first')%nat -> (first' + count' <= first + count)%nat ->
  fine oracle first' count'.
Proof. intros H H1 H2 n Hn. apply H. lia. Qed.

Lemma process_story_fine parse decode reddit oracle cfg author story w :
  Forall (fun s => selftext_html s <> None)
         (sorted_submissions (reddit author story)) ->
  fine oracle (calls w) 6 ->
  process_story parse decode reddit oracle cfg author story w =
  (Ok tt,
   grow w (story_events parse decode reddit cfg (author, story)) 6
        [success_line author story] []).
Proof.
  intros Hbodies Hfine. unfold process_story. cbv zeta.
  erewrite bind_ok; [|apply ext_grow; oracle_at].
  erewrite bind_ok.
  2:{ unfold get_chapters. erewrite bind_ok; [|apply ext_grow; oracle_at].
      reflexivity. }
  erewrite bind_ok; [|apply chapter_loop_spec; exact Hbodies].
  rewrite advance_grow. cbv beta iota.
  erewrite bind_ok; [|apply ext_grow; oracle_at].
  rewrite deliver_sent by oracle_at.
  rewrite !grow_grow. unfold story_events, epub_path_of, book_of,
    book_chapters, delivery_mail, epub_path_of.
  rewrite <- ?app_assoc. reflexivity.
Qed.

Lemma stories_fine parse decode reddit oracle cfg author stories :
  (forall story, In story stories ->
                 Forall (fun s => selftext_html s <> None)
                        (sorted_submissions (reddit author story))) ->
  forall w,
    fine oracle (calls w) (6 * List.length stories) ->
    for_each (process_story parse decode reddit oracle cfg author) stories w =
    (Ok tt,
     grow w
          (flat_map (story_events parse decode reddit cfg)
                    (map (fun story => (author, story)) stories))
          (6 * List.length stories)
          (map (fun pair => success_line (fst pair) (snd pair))
               (map (fun story => (author, story)) stories))
          []).
Proof.
  induction stories as [|story stories IH]; intros Hbodies w Hfine.
  - cbn. rewrite grow_nil. reflexivity.
  - cbn [for_each].
    erewrite bind_ok.
    2:{ apply process_story_fine; [apply Hbodies; left; reflexivity|].
        eapply fine_sub; [exact Hfine|lia|].
        cbn [List.length]. lia. }
    rewrite IH.
    2:{ intros story' Hin. apply Hbodies. right. exact Hin. }
    2:{ eapply fine_sub; [exact Hfine|cbn [calls grow]; lia|].
        cbn [calls grow List.length]. lia. }
    rewrite grow_grow. cbn [map flat_map List.length fst snd app].
    f_equal. f_equal. lia.
Qed.

Lemma pairs_fine parse decode reddit oracle cfg entries :
  (forall entry story,
      In entry entries -> In story (snd entry) ->
      Forall (fun s => selftext_html s <> None)
             (sorted_submissions (reddit (fst entry) story))) ->
  forall w,
    let pairs :=
      flat_map (fun entry : string * list string =>
                  map (fun story => (fst entry, story)) (snd entry))
               entries in
    fine oracle (calls w) (6 * List.length pairs) ->
    for_each (fun entry : string * list string =>
                for_each (process_story parse decode reddit oracle cfg
                                        (fst entry)) (snd entry))
             entries w =
    (Ok tt,
     grow w (flat_map (story_events parse decode reddit cfg) pairs)
          (6 * List.length pairs)
          (map (fun pair => success_line (fst pair) (snd pair)) pairs) []).
Proof.
  induction entries as [|entry entries IH]; intros Hbodies w; cbv zeta;
    intro Hfine.
  - cbn. rewrite grow_nil. reflexivity.
  - cbn [for_each flat_map] in *. rewrite length_app in Hfine.
    erewrite bind_ok.
    2:{ apply stories_fine.
        - intros story Hin. apply Hbodies; [left; reflexivity|exact Hin].
        - eapply fine_sub; [exact Hfine|lia|].
          rewrite length_map. lia. }
    cbv zeta in IH. rewrite IH.
    2:{ intros entry' story Hentry Hin.
        apply Hbodies; [right; exact Hentry|exact Hin]. }
    2:{ eapply fine_sub; [exact Hfine|cbn [calls grow]; lia|].
        cbn [calls grow]. rewrite !length_map. lia. }
    rewrite grow_grow, flat_map_app, map_app, length_app, !length_map.
    f_equal. f_equal. lia.
Qed.

(** A pass in which the calls of every story work: the stories are done
    and the summary is about to be sent. *)
Lemma download_stories_body_pass parse decode reddit oracle cfg w :
  bot_enabled cfg = true ->
  (forall author story,
      In (author, story) (story_pairs cfg) ->
      Forall (fun s => selftext_html s <> None)
             (sorted_submissions (reddit author story))) ->
  fine oracle (calls w) (6 * List.length (story_pairs cfg)) ->
  let lines :=
    map (fun pair => success_line (fst pair) (snd pair)) (story_pairs cfg) in
  download_stories_body parse decode reddit oracle cfg w =
  send_email oracle cfg None "Stories Download Summary" (error_receiver cfg)
    (Some ("Summary:" ++ nl ++ nl ++ Py.join nl lines))
    (grow (fresh w)
          (flat_map (story_events parse decode reddit cfg) (story_pairs cfg))
          (6 * List.length (story_pairs cfg)) lines []).
Proof.
  intros Hon Hbodies Hfine. cbv zeta. unfold download_stories_body.
  erewrite bind_ok; [|reflexivity].
  rewrite Hon.
  erewrite bind_ok.
  2:{ apply pairs_fine; [|exact Hfine].
      intros entry story Hentry Hin. apply Hbodies.
      unfold story_pairs. apply in_flat_map. exists entry.
      split; [exact Hentry|]. apply in_map. exact Hin. }
  erewrite bind_ok; [|reflexivity].
  reflexivity.
Qed.

(** X18: when the bot is enabled, every submission kept for a
    configured story has a body and every external call of the run
    works, [download_stories] makes one pass and ends without exception:
    the events are, story by story in the order of the configuration, the
    directory, the fetch, the rejected chapters, the book, one mail
    session, the removal of the file and the log entry, and then one
    session for the summary; the summary holds one success line per
    story, in order; [failed_files] is empty; six external calls are made
    per story and one for the summary.  [job] does the same. *)
Theorem all_fine_run
  (parse : string -> list node) (decode : list node -> string)
  (reddit : string -> string -> list submission)
  (oracle : nat -> option (string * string)) (cfg : config) (w : world) :
  bot_enabled cfg = true ->
  (forall author story,
      In (author, story) (story_pairs cfg) ->
      Forall (fun s => selftext_html s <> None)
             (sorted_submissions (reddit author story))) ->
  fine oracle (calls w) (6 * List.length (story_pairs cfg) + 1) ->
  let lines :=
    map (fun pair => success_line (fst pair) (snd pair)) (story_pairs cfg) in
  let done :=
    (Ok tt,
     grow (fresh w)
          (flat_map (story_events parse decode reddit cfg) (story_pairs cfg)
           ++ [Smtp (summary_mail cfg lines)])
          (6 * List.length (story_pairs cfg) + 1) lines []) in
  download_stories parse decode reddit oracle cfg w = done
  /\ job parse decode reddit oracle cfg w = done.
Proof.
  intros Hon Hbodies Hfine. cbv zeta.
  assert (Hbody : download_stories_body parse decode reddit oracle cfg w =
                  (Ok tt,
                   grow (fresh w)
                        (flat_map (story_events parse decode reddit cfg)
                                  (story_pairs cfg)
                         ++ [Smtp (summary_mail cfg
                                     (map (fun pair =>
                                             success_line (fst pair)
                                                          (snd pair))
                                          (story_pairs cfg)))])
                        (6 * List.length (story_pairs cfg) + 1)
                        (map (fun pair => success_line (fst pair) (snd pair))
                             (story_pairs cfg)) [])).
  { rewrite download_stories_body_pass;
      [|exact Hon|exact Hbodies|eapply fine_sub; [exact Hfine|lia|lia]].
    rewrite send_email_ok by oracle_at.
    rewrite grow_grow, !app_nil_r. reflexivity. }
  assert (Hrun : download_stories parse decode reddit oracle cfg w =
                 download_stories_body parse decode reddit oracle cfg w).
  { unfold download_stories, retry. cbn [retry_loop]. rewrite Hbody.
    reflexivity. }
  split.
  - rewrite Hrun. exact Hbody.
  - unfold job. erewrite try_ok; [reflexivity|].
    rewrite Hrun. exact Hbody.
Qed.

(** X18 on the scenario: one story whose posts have a body, every call
    working. *)
Lemma all_fine_run_witness :
  bot_enabled sample_config = true
  /\ Forall (fun s => selftext_html s <> None)
            (sorted_submissions scenario_posts)
  /\ summary (snd (job paragraph_parse (fun _ => "")
                       (fun _ _ => scenario_posts) all_fine sample_config
                       initial_world)) =
     ["Successfully processed and sent Beneath Two Suns by Isha73"].
Proof.
  assert (Hbodies : Forall (fun s => selftext_html s <> None)
                           (sorted_submissions scenario_posts)).
  { repeat (apply Forall_cons; [discriminate|]). apply Forall_nil. }
  split; [reflexivity|]. split; [exact Hbodies|].
  rewrite (proj2 (all_fine_run paragraph_parse (fun _ => "")
                    (fun _ _ => scenario_posts) all_fine sample_config
                    initial_world eq_refl (fun _ _ _ => Hbodies)
                    (fun n _ => eq_refl))).
  reflexivity.
Defined.

(** X19: the retry around [download_stories] repeats the whole pass.
    When every submission kept for a configured story has a body and
    every call of the stories works but the three sessions of the
    summary fail, the run waits 4 and goes through every story again:
    each book is fetched, written, mailed and removed a second time.
    When that second pass works to the end, the run ends without
    exception, and its summary holds each success line once, the lists
    being emptied at the start of a pass. *)
Theorem failed_summary_repeats_pass
  (parse : string -> list node) (decode : list node -> string)
  (reddit : string -> string -> list submission)
  (oracle : nat -> option (string * string)) (cfg : config) (w : world) :
  let stories := List.length (story_pairs cfg) in
  bot_enabled cfg = true ->
  (forall author story,
      In (author, story) (story_pairs cfg) ->
      Forall (fun s => selftext_html s <> None)
             (sorted_submissions (reddit author story))) ->
  fine oracle (calls w) (6 * stories) ->
  failing oracle (calls w + 6 * stories) 3 ->
  fine oracle (calls w + 6 * stories + 3) (6 * stories + 1) ->
  let lines :=
    map (fun pair => success_line (fst pair) (snd pair)) (story_pairs cfg) in
  let pass :=
    flat_map (story_events parse decode reddit cfg) (story_pairs cfg) in
  let mail := Smtp (summary_mail cfg lines) in
  download_stories parse decode reddit oracle cfg w =
  (Ok tt,
   grow (fresh w)
        (pass ++ [mail; Sleep 4; mail; Sleep 4; mail] ++ [Sleep 4]
         ++ pass ++ [mail])
        (12 * stories + 4) lines []).
Proof.
  cbv zeta. intros Hon Hbodies Hfirst Hfail Hsecond.
  destruct (oracle (calls w + 6 * List.length (story_pairs cfg) + 2)%nat)
    as [[class text]|] eqn:Hthird.
  2:{ exfalso. apply (Hfail (calls w + 6 * List.length (story_pairs cfg) + 2)%nat);
        [lia|exact Hthird]. }
  unfold download_stories, retry. cbn [retry_loop].
  rewrite (download_stories_body_pass _ _ _ _ _ _ Hon Hbodies Hfirst).
  cbv zeta.
  rewrite (send_email_fails oracle cfg _ _ _ _ _ class text) by oracle_at.
  change (stop_after_attempt 3 1) with false. cbv iota.
  erewrite bind_ok; [|apply emit_grow].
  change (wait_exponential 1 4 60 1) with 4%Z.
  rewrite download_stories_body_pass; [|exact Hon|exact Hbodies|].
  2:{ eapply fine_sub; [exact Hsecond|cbn [calls grow fresh]; lia|].
      cbn [calls grow fresh]. lia. }
  cbv zeta. rewrite send_email_ok.
  2:{ cbn [calls grow fresh]. apply Hsecond. lia. }
  f_equal. unfold grow, fresh, summary_mail.
  cbn [trace calls summary failed_files].
  apply world_ext.
  - rewrite <- !app_assoc. reflexivity.
  - lia.
  - rewrite !app_nil_r. reflexivity.
  - reflexivity.
Qed.

(** X19 on the scenario: the three sessions of the first summary fail. *)
Lemma failed_summary_repeats_pass_witness :
  bot_enabled sample_config = true
  /\ Forall (fun s => selftext_html s <> None)
            (sorted_submissions scenario_posts)
  /\ fst (download_stories paragraph_parse (fun _ => "")
                           (fun _ _ => scenario_posts) summary_fails
                           sample_config initial_world) = Ok tt
  /\ List.length
       (mails (trace (snd (download_stories paragraph_parse (fun _ => "")
                             (fun _ _ => scenario_posts) summary_fails
                             sample_config initial_world)))) = 6%nat.
Proof.
  assert (Hbodies : Forall (fun s => selftext_html s <> None)
                           (sorted_submissions scenario_posts)).
  { repeat (apply Forall_cons; [discriminate|]). apply Forall_nil. }
  assert (Hrun := failed_summary_repeats_pass paragraph_parse (fun _ => "")
                    (fun _ _ => scenario_posts) summary_fails sample_config
                    initial_world eq_refl (fun _ _ _ => Hbodies)).
  cbv zeta in Hrun. rewrite Hrun.
  - split; [reflexivity|]. split; [exact Hbodies|]. split; reflexivity.
  - intros n Hn. cbn in Hn. unfold summary_fails.
    replace (6 <=? n)%nat with false by (symmetry; apply Nat.leb_gt; lia).
    reflexivity.
  - intros n Hn. cbn in Hn. unfold summary_fails.
    replace (6 <=? n)%nat with true by (symmetry; apply Nat.leb_le; lia).
    replace (n <=? 8)%nat with true by (symmetry; apply Nat.leb_le; lia).
    discriminate.
  - intros n Hn. cbn in Hn. unfold summary_fails.
    replace (n <=? 8)%nat with false by (symmetry; apply Nat.leb_gt; lia).
    rewrite andb_false_r. reflexivity.
Defined.

(** ** The start notice and the report of a failed run *)

Lemma retry_unfold {A : Type} (f : M A) w :
  retry f w =
  match f w with
  | (Raise _, w1) =>
      match f (grow w1 [Sleep 4] 0 [] []) with
      | (Raise _, w2) =>
          match f (grow w2 [Sleep 4] 0 [] []) with
          | (Raise e3, w3) => (Raise (RetryError e3), w3)
          | r => r
          end
      | r => r
      end
  | r => r
  end.
Proof.
  unfold retry. cbn [retry_loop].
  destruct (f w) as [[a|e1|] w1]; try reflexivity.
  change (stop_after_attempt 3 1) with false. cbv iota.
  erewrite bind_ok; [|apply emit_grow].
  change (wait_exponential 1 4 60 1) with 4%Z. cbn [retry_loop].
  destruct (f (grow w1 [Sleep 4] 0 [] [])) as [[a|e2|] w2]; try reflexivity.
  change (stop_after_attempt 3 2) with false. cbv iota.
  erewrite bind_ok; [|apply emit_grow].
  change (wait_exponential 1 4 60 2) with 4%Z. cbn [retry_loop].
  destruct (f (grow w2 [Sleep 4] 0 [] [])) as [[a|e3|] w3]; reflexivity.
Qed.

Lemma send_email_first_event oracle cfg fp st rcv em w :
  exists rest,
    trace (snd (send_email oracle cfg fp st rcv em w)) =
    (trace w ++ Smtp (compose_message cfg fp st rcv em) :: rest)%list.
Proof.
  unfold send_email, send_email_body. rewrite retry_ext.
  destruct (oracle (calls w)) as [[c1 t1]|];
    [destruct (oracle (S (calls w))) as [[c2 t2]|];
     [destruct (oracle (S (S (calls w)))) as [[c3 t3]|]|]|];
    cbn [snd trace advance]; eexists; reflexivity.
Qed.

Lemma job_runs parse decode reddit oracle cfg :
  runs (run_event cfg) (fun _ => True) (job parse decode reddit oracle cfg).
Proof.
  unfold job. apply runs_try_except.
  - unfold download_stories. apply runs_retry; [|reflexivity].
    apply download_stories_body_runs.
  - intro e.
    apply runs_bind with (Q := fun _ => True);
      [apply runs_emit; exact I|intros _ _].
    apply runs_send_email; [apply notice_event; reflexivity|reflexivity].
Qed.

(** X20: the first thing a process does is a session for the start
    notice, before any story is touched; and when its three sessions
    fail, the process ends there with the [RetryError]: [job] is not
    run, no story is fetched, and no mail reports the failure. *)
Theorem start_notice_first
  (parse : string -> list node) (decode : list node -> string)
  (reddit : string -> string -> list submission)
  (oracle : nat -> option (string * string)) (cfg : config) (w : world) :
  let notice :=
    Smtp (compose_message cfg None "Bot Started" (error_receiver cfg)
                          (Some "The bot has started.")) in
  (exists rest,
      trace (snd (main parse decode reddit oracle cfg w)) =
      (trace w ++ notice :: rest)%list)
  /\ (forall class text,
         oracle (calls w) <> None ->
         oracle (calls w + 1)%nat <> None ->
         oracle (calls w + 2)%nat = Some (class, text) ->
         main parse decode reddit oracle cfg w =
         (Raise (RetryError (Error class text)),
          grow w [notice; Sleep 4; notice; Sleep 4; notice] 3 [] [])).
Proof.
  cbv zeta. split.
  - unfold main, bind.
    destruct (send_email_first_event oracle cfg None "Bot Started"
                (error_receiver cfg) (Some "The bot has started.") w)
      as [rest Ht].
    destruct (send_email oracle cfg None "Bot Started" (error_receiver cfg)
                         (Some "The bot has started.") w)
      as [[[]|e|] w1]; cbn [snd] in Ht.
    + destruct (job_runs parse decode reddit oracle cfg w1)
        as [new [Ht' _]].
      exists (rest ++ new)%list. rewrite Ht', Ht, <- app_assoc. reflexivity.
    + exists rest. exact Ht.
    + exists rest. exact Ht.
  - intros class text H0 H1 H2. unfold main. apply bind_raise.
    apply send_email_fails; assumption.
Qed.

Lemma download_stories_body_mkdir_fails parse decode reddit oracle cfg w
  author story stories others class text :
  bot_enabled cfg = true ->
  authors_stories cfg = (author, story :: stories) :: others ->
  oracle (calls w) = Some (class, text) ->
  download_stories_body parse decode reddit oracle cfg w =
  (Raise (Error class text),
   grow (fresh w) [Mkdir (Py.path_join (cwd cfg) (sanitize_title story))]
        1 [] []).
Proof.
  intros Hon Hcfg Hfail. unfold download_stories_body.
  erewrite bind_ok; [|reflexivity].
  rewrite Hon, Hcfg. cbn [for_each fst snd].
  apply bind_raise. apply bind_raise. apply bind_raise.
  unfold process_story. cbv zeta. apply bind_raise.
  apply ext_raise. exact Hfail.
Qed.

(** X21: [job] turns a failed run into a mail.  When the directory of the
    first story cannot be made in any of the three passes, [job] itself
    ends without exception: each pass stops at the directory (no fetch,
    no book, no summary), the passes are 4 time units apart, the failure
    is logged, and one session carries the [Bot Error] notice with the
    text of the [RetryError] to the error receiver. *)
Theorem job_reports_failed_run
  (parse : string -> list node) (decode : list node -> string)
  (reddit : string -> string -> list submission)
  (oracle : nat -> option (string * string)) (cfg : config) (w : world)
  (author story : string) (stories : list string)
  (others : list (string * list string)) (class text : string) :
  bot_enabled cfg = true ->
  authors_stories cfg = (author, story :: stories) :: others ->
  oracle (calls w) <> None ->
  oracle (calls w + 1)%nat <> None ->
  oracle (calls w + 2)%nat = Some (class, text) ->
  oracle (calls w + 3)%nat = None ->
  let mkdir := Mkdir (Py.path_join (cwd cfg) (sanitize_title story)) in
  let e := RetryError (Error class text) in
  job parse decode reddit oracle cfg w =
  (Ok tt,
   grow (fresh w)
        [mkdir; Sleep 4; mkdir; Sleep 4; mkdir;
         LogError ("Failed to download stories: " ++ str e);
         Smtp (compose_message cfg None "Bot Error" (error_receiver cfg)
                 (Some ("Bot encountered an error: " ++ str e)))]
        4 [] []).
Proof.
  intros Hon Hcfg H0 H1 H2 H3. cbv zeta.
  destruct (oracle (calls w)) as [[c0 t0]|] eqn:E0; [|contradiction].
  destruct (oracle (calls w + 1)%nat) as [[c1 t1]|] eqn:E1; [|contradiction].
  unfold job. erewrite try_raise.
  2:{ unfold download_stories. rewrite retry_unfold.
      rewrite (download_stories_body_mkdir_fails _ _ _ _ _ _ _ _ _ _ _ _
                 Hon Hcfg E0).
      rewrite (download_stories_body_mkdir_fails _ _ _ _ _ _ _ _ _ _ c1 t1
                 Hon Hcfg) by oracle_at.
      rewrite (download_stories_body_mkdir_fails _ _ _ _ _ _ _ _ _ _
                 class text Hon Hcfg) by oracle_at.
      reflexivity. }
  erewrite bind_ok; [|apply emit_grow].
  rewrite send_email_ok by oracle_at.
  f_equal. unfold grow, fresh. cbn [trace calls summary failed_files].
  apply world_ext.
  - rewrite <- !app_assoc. reflexivity.
  - lia.
  - reflexivity.
  - reflexivity.
Qed.

(** X21 on a sample: the working directory is not writable. *)
Lemma job_reports_failed_run_witness :
  bot_enabled sample_config = true
  /\ fst (job paragraph_parse (fun _ => "") (fun _ _ => scenario_posts)
              mkdir_fails sample_config initial_world) = Ok tt
  /\ List.length
       (mails (trace (snd (job paragraph_parse (fun _ => "")
                               (fun _ _ => scenario_posts) mkdir_fails
                               sample_config initial_world)))) = 1%nat.
Proof.
  rewrite (job_reports_failed_run paragraph_parse (fun _ => "")
             (fun _ _ => scenario_posts) mkdir_fails sample_config
             initial_world "Isha73" "Beneath Two Suns" [] []
             "PermissionError" "Permission denied"
             eq_refl eq_refl ltac:(discriminate) ltac:(discriminate)
             eq_refl eq_refl).
  repeat split.
Defined.

(** ** Which submissions become chapters *)



Lemma filter_partition_length {A : Type} (p : A -> bool) l :
  (List.length (filter p l)
   + List.length (filter (fun x => negb (p x)) l))%nat = List.length l.
Proof.
  induction l as [|x l IH]; [reflexivity|].
  simpl. destruct (p x); simpl; lia.
Qed.



(** ** A kept post without text *)

Lemma process_story_no_body parse decode reddit oracle cfg author story w
  before s after :
  fine oracle (calls w) 2 ->
  sorted_submissions (reddit author story) = (before ++ s :: after)%list ->
  Forall (fun s => selftext_html s <> None) before ->
  selftext_html s = None ->
  process_story parse decode reddit oracle cfg author story w =
  (Raise none_has_no_len,
   grow w
        ([Mkdir (Py.path_join (cwd cfg) (sanitize_title story));
          Fetch author story]
         ++ map LogError (rejection_messages parse before))
        2 [] []).
Proof.
  intros Hfine Hsplit Hbefore Hs. unfold process_story. cbv zeta.
  erewrite bind_ok; [|apply ext_grow; oracle_at].
  erewrite bind_ok.
  2:{ unfold get_chapters. erewrite bind_ok; [|apply ext_grow; oracle_at].
      reflexivity. }
  erewrite bind_raise.
  2:{ rewrite Hsplit. apply chapter_loop_no_body; assumption. }
  rewrite advance_grow, !grow_grow. reflexivity.
Qed.

Lemma download_stories_body_no_body parse decode reddit oracle cfg w
  author story stories others before s after :
  bot_enabled cfg = true ->
  authors_stories cfg = (author, story :: stories) :: others ->
  fine oracle (calls w) 2 ->
  sorted_submissions (reddit author story) = (before ++ s :: after)%list ->
  Forall (fun s => selftext_html s <> None) before ->
  selftext_html s = None ->
  download_stories_body parse decode reddit oracle cfg w =
  (Raise none_has_no_len,
   grow (fresh w)
        ([Mkdir (Py.path_join (cwd cfg) (sanitize_title story));
          Fetch author story]
         ++ map LogError (rejection_messages parse before))
        2 [] []).
Proof.
  intros Hon Hcfg Hfine Hsplit Hbefore Hs. unfold download_stories_body.
  erewrite bind_ok; [|reflexivity].
  rewrite Hon, Hcfg. cbn [for_each fst snd].
  apply bind_raise. apply bind_raise. apply bind_raise.
  apply (process_story_no_body parse decode reddit oracle cfg author story
           (fresh w) before s after); assumption.
Qed.

(** X23: a kept post without text stops the work on its story.  When the
    directory and the fetch go through and the kept submissions, in
    order, have a body up to one that has none, [process_story] logs the
    rejections among the former and ends with the [TypeError] of [len]:
    no book is written, no mail is sent, nothing is added to the summary,
    and the submissions after that one are not looked at. *)
Theorem story_without_body_raises
  (parse : string -> list node) (decode : list node -> string)
  (reddit : string -> string -> list submission)
  (oracle : nat -> option (string * string)) (cfg : config)
  (author story : string) (w : world)
  (before : list submission) (s : submission) (after : list submission) :
  oracle (calls w) = None ->
  oracle (S (calls w)) = None ->
  sorted_submissions (reddit author story) = (before ++ s :: after)%list ->
  Forall (fun s => selftext_html s <> None) before ->
  selftext_html s = None ->
  let run := process_story parse decode reddit oracle cfg author story w in
  fst run = Raise (Error "TypeError" "object of type 'NoneType' has no len()")
  /\ trace (snd run) =
     (trace w
      ++ [Mkdir (Py.path_join (cwd cfg) (sanitize_title story));
          Fetch author story]
      ++ map LogError (rejection_messages parse before))%list
  /\ calls (snd run) = (calls w + 2)%nat
  /\ summary (snd run) = summary w
  /\ failed_files (snd run) = failed_files w.
Proof.
  intros H0 H1 Hsplit Hbefore Hs. cbv zeta.
  assert (Hfine : fine oracle (calls w) 2).
  { intros n Hn. assert (Hcases : n = calls w \/ n = S (calls w)) by lia.
    destruct Hcases as [->| ->]; assumption. }
  rewrite (process_story_no_body parse decode reddit oracle cfg author story
             w before s after Hfine Hsplit Hbefore Hs).
  cbn [fst snd grow trace calls summary failed_files].
  rewrite !app_nil_r. repeat split.
Qed.

(** X23 on a sample: chapter 1 with its text, then a post of chapter 3
    without. *)
Lemma story_without_body_raises_witness :
  sorted_submissions [chapter_1_first; chapter_3_no_body] =
  [chapter_1_first; chapter_3_no_body]
  /\ trace (snd (process_story paragraph_parse (fun _ => "")
                   (fun _ _ => [chapter_1_first; chapter_3_no_body])
                   all_fine sample_config "Isha73" "Beneath Two Suns"
                   initial_world)) =
     [Mkdir "/home/bot/Beneath Two Suns"; Fetch "Isha73" "Beneath Two Suns"].
Proof.
  split; [reflexivity|].
  assert (Hbefore : Forall (fun s => selftext_html s <> None)
                           [chapter_1_first]).
  { apply Forall_cons; [discriminate|apply Forall_nil]. }
  destruct (story_without_body_raises paragraph_parse (fun _ => "")
              (fun _ _ => [chapter_1_first; chapter_3_no_body])
              all_fine sample_config "Isha73" "Beneath Two Suns"
              initial_world [chapter_1_first] chapter_3_no_body []
              eq_refl eq_refl eq_refl Hbefore eq_refl) as [_ [Ht _]].
  rewrite Ht. reflexivity.
Defined.

(** X24: a post without text fails the whole run.  When the first
    configured story keeps such a post and every external call works,
    each of the three passes of [download_stories] stops in that story
    after the directory, the fetch and the rejections logged so far; the
    passes are 4 time units apart; no book is written and no story after
    it is started; [job] logs the failure and sends the [Bot Error]
    notice with the text of the [RetryError], and ends without
    exception. *)
Theorem job_reports_missing_body
  (parse : string -> list node) (decode : list node -> string)
  (reddit : string -> string -> list submission)
  (oracle : nat -> option (string * string)) (cfg : config) (w : world)
  (author story : string) (stories : list string)
  (others : list (string * list string))
  (before : list submission) (s : submission) (after : list submission) :
  bot_enabled cfg = true ->
  authors_stories cfg = (author, story :: stories) :: others ->
  sorted_submissions (reddit author story) = (before ++ s :: after)%list ->
  Forall (fun s => selftext_html s <> None) before ->
  selftext_html s = None ->
  fine oracle (calls w) 7 ->
  let pass :=
    ([Mkdir (Py.path_join (cwd cfg) (sanitize_title story));
      Fetch author story]
     ++ map LogError (rejection_messages parse before))%list in
  let e :=
    RetryError (Error "TypeError" "object of type 'NoneType' has no len()") in
  job parse decode reddit oracle cfg w =
  (Ok tt,
   grow (fresh w)
        (pass ++ [Sleep 4] ++ pass ++ [Sleep 4] ++ pass
         ++ [LogError ("Failed to download stories: " ++ str e);
             Smtp (compose_message cfg None "Bot Error" (error_receiver cfg)
                     (Some ("Bot encountered an error: " ++ str e)))])
        7 [] []).
Proof.
  intros Hon Hcfg Hsplit Hbefore Hs Hfine. cbv zeta.
  unfold job. erewrite try_raise.
  2:{ unfold download_stories. rewrite retry_unfold.
      rewrite (download_stories_body_no_body parse decode reddit oracle cfg
                 _ author story stories others before s after Hon Hcfg)
        by (first [assumption
                  |eapply fine_sub;
                   [exact Hfine|cbn [calls grow fresh]; lia
                   |cbn [calls grow fresh]; lia]]).
      rewrite (download_stories_body_no_body parse decode reddit oracle cfg
                 _ author story stories others before s after Hon Hcfg)
        by (first [assumption
                  |eapply fine_sub;
                   [exact Hfine|cbn [calls grow fresh]; lia
                   |cbn [calls grow fresh]; lia]]).
      rewrite (download_stories_body_no_body parse decode reddit oracle cfg
                 _ author story stories others before s after Hon Hcfg)
        by (first [assumption
                  |eapply fine_sub;
                   [exact Hfine|cbn [calls grow fresh]; lia
                   |cbn [calls grow fresh]; lia]]).
      reflexivity. }
  erewrite bind_ok; [|apply emit_grow].
  rewrite send_email_ok by oracle_at.
  f_equal. unfold grow, fresh. cbn [trace calls summary failed_files].
  apply world_ext.
  - rewrite <- !app_assoc. reflexivity.
  - lia.
  - reflexivity.
  - reflexivity.
Qed.

(** X24 on a sample: the one configured story keeps a post without
    text. *)
Lemma job_reports_missing_body_witness :
  bot_enabled sample_config = true
  /\ fst (job paragraph_parse (fun _ => "")
              (fun _ _ => [chapter_1_first; chapter_3_no_body]) all_fine
              sample_config initial_world) = Ok tt
  /\ mails (trace (snd (job paragraph_parse (fun _ => "")
                          (fun _ _ => [chapter_1_first; chapter_3_no_body])
                          all_fine sample_config initial_world))) =
     [ {| msg_from := "bot@example.org"; msg_to := "admin@example.org";
          msg_subject := "Error: Bot Error";
          msg_attachment := None;
          msg_text :=
            Some ("Bot encountered an error: "
                  ++ "RetryError[<Future state=finished raised TypeError>]")
       |} ].
Proof.
  assert (Hbefore : Forall (fun s => selftext_html s <> None)
                           [chapter_1_first]).
  { apply Forall_cons; [discriminate|apply Forall_nil]. }
  rewrite (job_reports_missing_body paragraph_parse (fun _ => "")
             (fun _ _ => [chapter_1_first; chapter_3_no_body]) all_fine
             sample_config initial_world "Isha73" "Beneath Two Suns" [] []
             [chapter_1_first] chapter_3_no_body []
             eq_refl eq_refl eq_refl Hbefore eq_refl (fun _ _ => eq_refl)).
  repeat split.
Defined.

(** ** The size test in floating point *)

(** X25: the size test is made on floats.  A log file of [2 ^ 53 + 1]
    bytes under a cap of [2 ^ 33] MiB, which is [2 ^ 53] bytes, is larger
    than the cap, but its size in MiB rounds to [2 ^ 33], which is not
    above the cap: the file is kept. *)
Theorem clean_old_logs_rounds_total :
  let log := {| Ledger.name := "2024-01-01_email_sent.log";
                Ledger.ctime := 100;
                Ledger.size := 9007199254740993 |} in
  (8589934592 * (1024 * 1024) < Ledger.size log)%N
  /\ Ledger.clean_old_logs [log] 8589934592 = Some ([], [log]).
Proof.
  cbv zeta. split; reflexivity.
Qed.

(** ** A story name made of dots *)

